(** * gff2_to_gff3: GFF2 to GFF3 conversion, shallow embedding

    The development follows [gff2_to_gff3.py] function by function:
    [convert_attributes], [parse_gff2], [write_gff3] and [main].

    Python [str] values are modelled as lists of characters ([list ascii],
    code points below 256), Python [int] as [Z], exceptions as an explicit
    error result, the file system as a finite map from paths to file texts
    (the decoded text of each file).  Reading a file that is absent
    raises; other failures of the file system are not modelled, and text
    is written as it is (no translation of line ends, as on POSIX).  The
    interpreter's optional limit on the number of decimal digits in
    int/str conversions ([sys.set_int_max_str_digits]) is taken as
    disabled; with the default limit the statements hold for integers of
    at most 4300 digits. *)

From Stdlib Require Import ZArith List Ascii String Lia Bool.
From Stdlib Require Import DecimalString Sorted.
From Stdlib Require DecimalPos.
From stdpp Require Import base option list gmap strings.

Import ListNotations.
Local Open Scope Z_scope.

(** ** Python strings *)

Abbreviation pystr := (list ascii).

(** Literals are written as Rocq strings and turned into character lists. *)
Definition str (s : string) : pystr := list_ascii_of_string s.

Definition dquote : ascii := "034"%char.
Definition tab : ascii := "009"%char.
Definition newline : ascii := "010"%char.
Definition carriage_return : ascii := "013"%char.

Definition str_eqb (a b : pystr) : bool := bool_decide (a = b).

(** [s.startswith(p)] *)
Fixpoint startswith (s p : pystr) : bool :=
  match p with
  | [] => true
  | c :: p' =>
      match s with
      | [] => false
      | d :: s' => Ascii.eqb c d && startswith s' p'
      end
  end.

(** [s.endswith(p)] *)
Definition endswith (s p : pystr) : bool := startswith (rev s) (rev p).

(** [sep.join(parts)] *)
Fixpoint join (sep : pystr) (parts : list pystr) : pystr :=
  match parts with
  | [] => []
  | [p] => p
  | p :: rest => p ++ sep ++ join sep rest
  end.

(** [s.split(sep)] for a one-character separator: always at least one
    field, empty fields are kept. *)
Fixpoint split (sep : ascii) (s : pystr) : list pystr :=
  match s with
  | [] => [[]]
  | c :: s' =>
      if Ascii.eqb c sep then [] :: split sep s'
      else match split sep s' with
           | [] => [[c]]
           | f :: fs => (c :: f) :: fs
           end
  end.

(** [s.rstrip(chars)] for a one-character set: the string is scanned from
    its end. *)
Fixpoint lstrip_char (c : ascii) (s : pystr) : pystr :=
  match s with
  | d :: s' => if Ascii.eqb d c then lstrip_char c s' else s
  | [] => []
  end.

Definition rstrip_char (c : ascii) (s : pystr) : pystr :=
  rev (lstrip_char c (rev s)).

(** Unicode white space below code point 256, as used by the [re] module
    for [\s] on [str] patterns and by [str.isspace]. *)
Definition is_space (c : ascii) : bool :=
  let n := N_of_ascii c in
  ((9 <=? n) && (n <=? 13) || (28 <=? n) && (n <=? 32)
   || (n =? 133) || (n =? 160))%N.

(** ** The backtracking matcher of the [re] module

    Only the constructs of the pattern of [convert_attributes] are needed:
    single-character classes, greedy and lazy repetition of a class,
    concatenation, ordered alternation and capture groups.  The matcher is
    written in continuation-passing style, so that a failure of the
    continuation makes the construct try its next possibility, exactly as
    the backtracking engine does. *)

Inductive cclass : Type :=
| CLit (c : ascii)      (* a literal character *)
| CSpace                (* \s *)
| CNonSpace             (* \S *)
| CNot (c : ascii).     (* [^c] *)

Definition cmatch (k : cclass) (a : ascii) : bool :=
  match k with
  | CLit c => Ascii.eqb a c
  | CSpace => is_space a
  | CNonSpace => negb (is_space a)
  | CNot c => negb (Ascii.eqb a c)
  end.

Inductive regex : Type :=
| One (k : cclass)
| Rep (greedy : bool) (low : nat) (k : cclass)  (* k{low,} or k{low,}? *)
| Cat (r1 r2 : regex)
| Alt (r1 r2 : regex)
| Grp (n : nat) (r : regex).

(** Captured groups: group number to captured text; an absent key is a
    group that did not take part in the match ([None] in Python). *)
Abbreviation groups := (gmap nat pystr).

Section Matcher.
Context {R : Type}.

(** Greedy repetition: take as many characters as possible, give one
    back at a time while the continuation fails. *)
Fixpoint rep_greedy (c : cclass) (low : nat) (s : pystr)
    (k : pystr -> option R) : option R :=
  match s with
  | a :: s' =>
      if cmatch c a then
        match rep_greedy c (Nat.pred low) s' k with
        | Some r => Some r
        | None => if Nat.eqb low 0 then k s else None
        end
      else if Nat.eqb low 0 then k s else None
  | [] => if Nat.eqb low 0 then k s else None
  end.

(** Lazy repetition: take the minimum, then one more character each time
    the continuation fails. *)
Fixpoint rep_lazy (c : cclass) (low : nat) (s : pystr)
    (k : pystr -> option R) {struct s} : option R :=
  let more :=
    match s with
    | a :: s' => if cmatch c a then rep_lazy c (Nat.pred low) s' k else None
    | [] => None
    end in
  if Nat.eqb low 0 then
    match k s with
    | Some r => Some r
    | None => more
    end
  else more.

(** [rmatch r s g k]: match [r] at the head of [s] with the groups [g]
    set so far, then continue with [k] on the rest of the input. *)
Fixpoint rmatch (r : regex) (s : pystr) (g : groups)
    (k : pystr -> groups -> option R) : option R :=
  match r with
  | One c =>
      match s with
      | a :: s' => if cmatch c a then k s' g else None
      | [] => None
      end
  | Rep true low c => rep_greedy c low s (fun s' => k s' g)
  | Rep false low c => rep_lazy c low s (fun s' => k s' g)
  | Cat r1 r2 => rmatch r1 s g (fun s1 g1 => rmatch r2 s1 g1 k)
  | Alt r1 r2 =>
      match rmatch r1 s g k with
      | Some x => Some x
      | None => rmatch r2 s g k
      end
  | Grp n r1 =>
      rmatch r1 s g
        (fun s1 g1 => k s1 (<[n := take (length s - length s1) s]> g1))
  end.
End Matcher.

(** A match object: its span in the searched string and its groups. *)
Record re_match : Type := MkMatch {
  m_start : nat;
  m_end : nat;
  m_groups : groups
}.

(** [m.group(n)] *)
Definition group (m : re_match) (n : nat) : option pystr := m_groups m !! n.

(** One attempt of the pattern at the head of [s]: the unmatched rest and
    the groups. *)
Definition match_here (r : regex) (s : pystr) : option (pystr * groups) :=
  rmatch r s ∅ (fun s' g => Some (s', g)).

(** [pattern.finditer(s)]: the leftmost match from each position, the scan
    resuming where the previous match ended.  [pos] is the offset of [s]
    in the searched string, [skip] the number of characters still covered
    by the previous match.  (After an empty match the scan moves on by one
    character; the pattern of this program has no empty match.) *)
Fixpoint finditer_from (r : regex) (pos skip : nat) (s : pystr)
    : list re_match :=
  match skip with
  | S skip' =>
      match s with
      | _ :: s' => finditer_from r (S pos) skip' s'
      | [] => []
      end
  | O =>
      match match_here r s with
      | Some (rest, g) =>
          let n := (length s - length rest)%nat in
          MkMatch pos (pos + n) g ::
          match s with
          | _ :: s' => finditer_from r (S pos) (Nat.pred n) s'
          | [] => []
          end
      | None =>
          match s with
          | _ :: s' => finditer_from r (S pos) 0 s'
          | [] => []
          end
      end
  end.

Definition finditer (r : regex) (s : pystr) : list re_match :=
  finditer_from r 0 0 s.

(** ** convert_attributes *)

(** The compiled pattern, an alternation of two branches.  First branch:
    group 1, one or more non-space characters (lazy); any white space
    (greedy); a double quote; group 2, any characters other than a double
    quote (greedy); a double quote.  Second branch: group 3, one or more
    non-space characters (lazy); an equals sign; group 4, one or more
    non-space characters (greedy). *)
Definition pattern : regex :=
  Alt
    (Cat (Grp 1 (Rep false 1 CNonSpace))
      (Cat (Rep true 0 CSpace)
        (Cat (One (CLit dquote))
          (Cat (Grp 2 (Rep true 0 (CNot dquote)))
               (One (CLit dquote))))))
    (Cat (Grp 3 (Rep false 1 CNonSpace))
      (Cat (One (CLit "="%char))
           (Grp 4 (Rep true 1 CNonSpace)))).

(** Truth value of [m.group(n)]: a non-empty string. *)
Definition truthy (o : option pystr) : bool :=
  match o with
  | Some (_ :: _) => true
  | _ => false
  end.

Definition is_not_None (o : option pystr) : bool :=
  match o with
  | Some _ => true
  | None => false
  end.

(** Formatting of a group inside an f-string. *)
Definition fmt (o : option pystr) : pystr :=
  match o with
  | Some s => s
  | None => str "None"
  end.

(** The key and the value chosen for a match (body of the loop). *)
Definition key_val (m : re_match) : option pystr * option pystr :=
  if truthy (group m 1) && is_not_None (group m 2)
  then (group m 1, group m 2)
  else (group m 3, group m 4).

Definition render_attr (m : re_match) : pystr :=
  let '(key, val) := key_val m in fmt key ++ str "=" ++ fmt val.

Definition convert_attributes (attr_str : pystr) : pystr :=
  join (str ";") (map render_attr (finditer pattern attr_str)).

(** ** Integers: [int(s)] and [str(n)] *)

Definition is_digit (c : ascii) : bool :=
  let n := N_of_ascii c in ((48 <=? n) && (n <=? 57))%N.

Definition digit_val (c : ascii) : Z := Z.of_N (N_of_ascii c) - 48.

(** White space of the C locale, skipped by the integer parser around the
    number. *)
Definition is_c_space (c : ascii) : bool :=
  let n := N_of_ascii c in ((9 <=? n) && (n <=? 13) || (n =? 32))%N.

(** Before parsing, a string with a character outside ASCII is rewritten:
    Unicode white space becomes a blank, a character that is not a decimal
    digit becomes a question mark, where the text is cut. *)
Fixpoint transform_decimal_and_space (s : pystr) : pystr :=
  match s with
  | [] => []
  | c :: s' =>
      if (N_of_ascii c <? 127)%N then c :: transform_decimal_and_space s'
      else if is_space c then " "%char :: transform_decimal_and_space s'
      else ["?"%char]
  end.

Definition to_ascii_number (s : pystr) : pystr :=
  if forallb (fun c => (N_of_ascii c <? 128)%N) s then s
  else transform_decimal_and_space s.

Fixpoint skip_c_space (s : pystr) : pystr :=
  match s with
  | c :: s' => if is_c_space c then skip_c_space s' else s
  | [] => []
  end.

(** The digits of the number, single underscores allowed between digits:
    the value, the number of digits and the text left. *)
Fixpoint scan_digits (prev_underscore : bool) (acc : Z) (n : nat) (s : pystr)
    : option (Z * nat * pystr) :=
  match s with
  | c :: s' =>
      if is_digit c then scan_digits false (10 * acc + digit_val c) (S n) s'
      else if Ascii.eqb c "_"%char then
        if prev_underscore then None else scan_digits true acc n s'
      else if prev_underscore then None else Some (acc, n, s)
  | [] => if prev_underscore then None else Some (acc, n, [])
  end.

(** [int(s)] in base 10; [None] stands for the [ValueError] it raises. *)
Definition py_int (s : pystr) : option Z :=
  let b := skip_c_space (to_ascii_number s) in
  let '(sign, b) :=
    match b with
    | c :: b' =>
        if Ascii.eqb c "+"%char then (1, b')
        else if Ascii.eqb c "-"%char then (-1, b')
        else (1, b)
    | [] => (1, b)
    end in
  if startswith b (str "_") then None
  else
    match scan_digits false 0 0 b with
    | Some (v, n, rest) =>
        if Nat.eqb n 0 then None
        else match skip_c_space rest with
             | [] => Some (sign * v)
             | _ :: _ => None
             end
    | None => None
    end.

(** [str(n)], also the rendering of an integer inside an f-string. *)
Definition str_of_int (n : Z) : pystr :=
  list_ascii_of_string (NilZero.string_of_int (Z.to_int n)).

(** ** Exceptions *)

Inductive exn : Type :=
| ValueError_too_many_values          (* unpacking more than 9 columns *)
| ValueError_invalid_literal (s : pystr)  (* int() on a non-number *)
| ValueError_empty_sequence           (* min() or max() of an empty list *)
| FileNotFoundError (path : pystr).

Inductive result (A : Type) : Type :=
| Ok (a : A)
| Raise (e : exn).
Arguments Ok {A} a.
Arguments Raise {A} e.

(** Sequencing: an exception ends the computation and is its result. *)
#[global] Instance result_bind : MBind result := fun A B f r =>
  match r with
  | Ok a => f a
  | Raise e => Raise e
  end.

Definition int_or_raise (s : pystr) : result Z :=
  match py_int s with
  | Some z => Ok z
  | None => Raise (ValueError_invalid_literal s)
  end.

(** [min(l)] and [max(l)] on a list of integers. *)
Definition py_min (l : list Z) : result Z :=
  match l with
  | [] => Raise ValueError_empty_sequence
  | x :: xs => Ok (fold_left Z.min xs x)
  end.

Definition py_max (l : list Z) : result Z :=
  match l with
  | [] => Raise ValueError_empty_sequence
  | x :: xs => Ok (fold_left Z.max xs x)
  end.

(** ** parse_gff2 *)

(** Iterating over a file opened in text mode: the lines with their line
    end, every line end ([\n], [\r\n] or [\r]) read as [\n]. *)
Fixpoint readlines (text : pystr) : list pystr :=
  match text with
  | [] => []
  | c :: rest =>
      if Ascii.eqb c newline then [newline] :: readlines rest
      else if Ascii.eqb c carriage_return then
        match rest with
        | d :: rest' =>
            if Ascii.eqb d newline then [newline] :: readlines rest'
            else [newline] :: readlines rest
        | [] => [[newline]]
        end
      else
        match readlines rest with
        | [] => [[c]]
        | l :: ls => (c :: l) :: ls
        end
  end.

(** A child feature, the 7-tuple appended to [features]. *)
Record feature : Type := MkFeature {
  ftype : pystr;
  fstart : Z;
  fend : Z;
  fscore : pystr;
  fstrand : pystr;
  fphase : pystr;
  fattrs : pystr
}.

(** The local variables of [parse_gff2] that the loop updates. *)
Record pstate : Type := MkPState {
  features : list feature;
  starts : list Z;
  ends : list Z;
  seqid : option pystr;
  strand : option pystr
}.

Definition pstate0 : pstate := MkPState [] [] [] None None.

(** The first test of the loop body: track and comment lines. *)
Definition is_comment (line : pystr) : bool :=
  startswith line (str "track") || startswith line (str "##")
  || startswith line (str "#").

Definition columns (line : pystr) : list pystr :=
  split tab (rstrip_char newline line).

(** One iteration of the loop over the lines. *)
Definition parse_line (st : pstate) (line : pystr) : result pstate :=
  if is_comment line then Ok st
  else
    let cols := columns line in
    if (length cols <? 9)%nat then Ok st
    else
      match cols with
      | [sid; source; ftype; start; end_; score; sd; phase; attr_str] =>
          s ← int_or_raise start;
          e ← int_or_raise end_;
          Ok (MkPState
                (features st ++
                   [MkFeature ftype s e score sd phase
                      (convert_attributes attr_str)])
                (starts st ++ [s])
                (ends st ++ [e])
                (Some sid)
                (Some sd))
      | _ => Raise ValueError_too_many_values
      end.

Fixpoint parse_loop (st : pstate) (lines : list pystr) : result pstate :=
  match lines with
  | [] => Ok st
  | line :: rest => st' ← parse_line st line; parse_loop st' rest
  end.

(** The returned 5-tuple. *)
Record parsed : Type := MkParsed {
  p_seqid : option pystr;
  p_start : Z;
  p_end : Z;
  p_strand : option pystr;
  p_features : list feature
}.

Definition parse_lines (lines : list pystr) : result parsed :=
  st ← parse_loop pstate0 lines;
  lo ← py_min (starts st);
  hi ← py_max (ends st);
  Ok (MkParsed (seqid st) lo hi (strand st) (features st)).

(** The file system: path to file text. *)
Abbreviation filesystem := (gmap pystr pystr).

Definition parse_gff2 (fs : filesystem) (path : pystr) : result parsed :=
  match fs !! path with
  | None => Raise (FileNotFoundError path)
  | Some text => parse_lines (readlines text)
  end.

(** ** write_gff3 *)

Definition mrna_id (base : pystr) : pystr := base ++ str "-PA".

Definition mrna_line (base : pystr) (seqid : option pystr) (start end_ : Z)
    (strand : option pystr) : pystr :=
  fmt seqid ++ [tab] ++ str "." ++ [tab] ++ str "mRNA" ++ [tab]
  ++ str_of_int start ++ [tab] ++ str_of_int end_ ++ [tab] ++ str "."
  ++ [tab] ++ fmt strand ++ [tab] ++ str "." ++ [tab]
  ++ str "ID=" ++ mrna_id base ++ str ";transcript_id=" ++ mrna_id base
  ++ [newline].

(** The test [ftype not in ("CDS", "exon")], negated. *)
Definition is_child_type (t : pystr) : bool :=
  str_eqb t (str "CDS") || str_eqb t (str "exon").

Definition child_line (base : pystr) (seqid : option pystr) (f : feature)
    : pystr :=
  fmt seqid ++ [tab] ++ str "GEP" ++ [tab] ++ ftype f ++ [tab]
  ++ str_of_int (fstart f) ++ [tab] ++ str_of_int (fend f) ++ [tab]
  ++ fscore f ++ [tab] ++ fstrand f ++ [tab] ++ fphase f ++ [tab]
  ++ str "Parent=" ++ mrna_id base ++ str ";" ++ fattrs f ++ [newline].

(** The loop over the child features: the strings written, in order. *)
Fixpoint child_lines (base : pystr) (seqid : option pystr)
    (fs : list feature) : list pystr :=
  match fs with
  | [] => []
  | f :: rest =>
      if negb (is_child_type (ftype f)) then child_lines base seqid rest
      else child_line base seqid f :: child_lines base seqid rest
  end.

(** The strings passed to [fout.write], one per call. *)
Definition gff3_lines (base : pystr) (seqid : option pystr) (start end_ : Z)
    (strand : option pystr) (fs : list feature) : list pystr :=
  [ str "##gff-version 3" ++ [newline];
    str "##sequence-region " ++ fmt seqid ++ str " " ++ str_of_int start
      ++ str " " ++ str_of_int end_ ++ [newline];
    mrna_line base seqid start end_ strand ]
  ++ child_lines base seqid fs
  ++ [ str "###" ++ [newline] ].

(** Opening for writing truncates the file; its text is then what was
    written, in order. *)
Definition write_gff3 (fsys : filesystem) (path base : pystr)
    (seqid : option pystr) (start end_ : Z) (strand : option pystr)
    (fs : list feature) : filesystem :=
  <[path := concat (gff3_lines base seqid start end_ strand fs)]> fsys.

(** ** main *)

Definition INPUT_DIR : pystr := str "/Users/.../Apollo_Trackmaker/input".
Definition OUTPUT_DIR : pystr := str "/Users/.../Apollo_Trackmaker/input".
Definition OUTPUT_EXT : pystr := str ".gff3".

(** [s.lower()] on code points below 256. *)
Definition lower_char (c : ascii) : ascii :=
  let n := N_of_ascii c in
  if ((65 <=? n) && (n <=? 90)
      || (192 <=? n) && (n <=? 222) && negb (n =? 215))%N
  then ascii_of_N (n + 32) else c.

Definition lower (s : pystr) : pystr := map lower_char s.

(** [s.rfind(c)]: the index of the last occurrence, or -1. *)
Fixpoint rfind_from (c : ascii) (i : Z) (s : pystr) (found : Z) : Z :=
  match s with
  | [] => found
  | d :: s' => rfind_from c (i + 1) s' (if Ascii.eqb d c then i else found)
  end.

Definition rfind (c : ascii) (s : pystr) : Z := rfind_from c 0 s (-1).

(** [os.path.splitext(p)]: the extension starts at the last dot of the
    last path component, unless only dots come before it there. *)
Definition splitext (p : pystr) : pystr * pystr :=
  let sepIndex := rfind "/"%char p in
  let dotIndex := rfind "."%char p in
  if (sepIndex <? dotIndex)
     && existsb (fun c => negb (Ascii.eqb c "."%char))
          (take (Z.to_nat (dotIndex - (sepIndex + 1)))
             (drop (Z.to_nat (sepIndex + 1)) p))
  then (take (Z.to_nat dotIndex) p, drop (Z.to_nat dotIndex) p)
  else (p, []).

(** [os.path.join(a, b)] *)
Definition path_join (a b : pystr) : pystr :=
  if startswith b (str "/") then b
  else if match a with [] => true | _ => endswith a (str "/") end then a ++ b
  else a ++ str "/" ++ b.

(** The selection of the input files from the directory listing. *)
Definition is_input_file (f : pystr) : bool :=
  endswith (lower f) (str ".gff") && negb (endswith (lower f) OUTPUT_EXT).

(** The body of the loop over the files.  An exception of [parse_gff2]
    is not caught: the output file is not opened. *)
Definition convert_file (fsys : filesystem) (fname : pystr)
    : filesystem * result unit :=
  let base := fst (splitext fname) in
  let in_path := path_join INPUT_DIR fname in
  let out_fname := base ++ OUTPUT_EXT in
  let out_path := path_join OUTPUT_DIR out_fname in
  match parse_gff2 fsys in_path with
  | Ok p =>
      (write_gff3 fsys out_path base
         (p_seqid p) (p_start p) (p_end p) (p_strand p) (p_features p),
       Ok tt)
  | Raise e => (fsys, Raise e)
  end.

Fixpoint convert_files (fsys : filesystem) (files : list pystr)
    : filesystem * result unit :=
  match files with
  | [] => (fsys, Ok tt)
  | fname :: rest =>
      match convert_file fsys fname with
      | (fsys', Ok _) => convert_files fsys' rest
      | (fsys', Raise e) => (fsys', Raise e)
      end
  end.

(** [main], given the listing of the input directory: the file system it
    leaves and how it ends.  The progress messages are left out. *)
Definition main (listing : list pystr) (fsys : filesystem)
    : filesystem * result unit :=
  let files := List.filter is_input_file listing in
  match files with
  | [] => (fsys, Ok tt)
  | _ :: _ => convert_files fsys files
  end.

(** * Vocabulary of the properties *)

(** [matches r s g s' g']: the expression [r] matches a prefix of [s],
    leaving [s'], and turns the groups [g] into [g'].  The relation says
    which results are matches, not which one the matcher prefers. *)
Inductive matches : regex -> pystr -> groups -> pystr -> groups -> Prop :=
| matches_one c a s g :
    cmatch c a = true -> matches (One c) (a :: s) g s g
| matches_rep gr low c pre s g :
    forallb (cmatch c) pre = true -> (low <= length pre)%nat ->
    matches (Rep gr low c) (pre ++ s) g s g
| matches_cat r1 r2 s g s1 g1 s2 g2 :
    matches r1 s g s1 g1 -> matches r2 s1 g1 s2 g2 ->
    matches (Cat r1 r2) s g s2 g2
| matches_alt_l r1 r2 s g s' g' :
    matches r1 s g s' g' -> matches (Alt r1 r2) s g s' g'
| matches_alt_r r1 r2 s g s' g' :
    matches r2 s g s' g' -> matches (Alt r1 r2) s g s' g'
| matches_grp n r s g s' g' :
    matches r s g s' g' ->
    matches (Grp n r) s g s' (<[n := take (length s - length s') s]> g').

(** The two shapes of a match of [pattern]: a key, white space and a quoted
    value, with groups 1 and 2 set; or a key, an equals sign and a value,
    with groups 3 and 4 set. *)
Definition quoted_shape (s rest : pystr) (g : groups) : Prop :=
  exists key ws val,
    s = key ++ ws ++ dquote :: val ++ dquote :: rest
    /\ key <> [] /\ forallb (cmatch CNonSpace) key = true
    /\ forallb (cmatch CSpace) ws = true
    /\ forallb (cmatch (CNot dquote)) val = true
    /\ g = <[2%nat := val]> (<[1%nat := key]> ∅).

Definition equals_shape (s rest : pystr) (g : groups) : Prop :=
  exists key val,
    s = key ++ "="%char :: val ++ rest
    /\ key <> [] /\ forallb (cmatch CNonSpace) key = true
    /\ val <> [] /\ forallb (cmatch CNonSpace) val = true
    /\ g = <[4%nat := val]> (<[3%nat := key]> ∅).

(** [m] is a match of [r] in [s]: the matcher, started at offset
    [m_start m], stops at offset [m_end m] with the groups of [m]. *)
Definition match_at (r : regex) (s : pystr) (m : re_match) : Prop :=
  (m_start m <= m_end m)%nat /\ (m_end m <= length s)%nat /\
  match_here r (drop (m_start m) s) = Some (drop (m_end m) s, m_groups m).

(** A match ends before the next one starts. *)
Definition precedes (a b : re_match) : Prop := (m_end a <= m_start b)%nat.

(** The lines the loop passes over: those that begin with [#], [##] or
    [track], and those that split on the tab into fewer than 9 columns. *)
Definition skipped (line : pystr) : bool :=
  startswith line (str "#") || startswith line (str "##")
  || startswith line (str "track")
  || (length (split tab (rstrip_char newline line)) <? 9)%nat.

(** The other lines are taken as feature lines. *)
Definition feature_line (line : pystr) : bool := negb (skipped line).

Definition column (i : nat) (line : pystr) : pystr :=
  nth i (columns line) [].

(** A feature line is well formed when it has exactly 9 columns and its
    start and end columns are integers. *)
Definition well_formed (line : pystr) : Prop :=
  length (columns line) = 9%nat
  /\ is_Some (py_int (column 3 line)) /\ is_Some (py_int (column 4 line)).

(** The state after a well-formed feature line. *)
Definition push_feature (st : pstate) (line : pystr) (s e : Z) : pstate :=
  MkPState
    (features st ++
       [MkFeature (column 2 line) s e (column 5 line) (column 6 line)
          (column 7 line) (convert_attributes (column 8 line))])
    (starts st ++ [s])
    (ends st ++ [e])
    (Some (column 0 line))
    (Some (column 6 line)).

(** Smallest and largest element of a list. *)
Definition is_min (z : Z) (l : list Z) : Prop :=
  In z l /\ forall x, In x l -> z <= x.

Definition is_max (z : Z) (l : list Z) : Prop :=
  In z l /\ forall x, In x l -> x <= z.

(** A feature line with 9 columns whose start or end is no integer. *)
Definition bad_coordinate_line (line : pystr) : Prop :=
  feature_line line = true /\ length (columns line) = 9%nat
  /\ (py_int (column 3 line) = None \/ py_int (column 4 line) = None).

(** The tab-separated fields of a written line (the last one holds the
    line end). *)
Definition fields (line : pystr) : list pystr := split tab line.

Definition field (i : nat) (line : pystr) : pystr := nth i (fields line) [].

(** The attributes of a written line as a reader of GFF3 takes them: the
    ninth column is cut at every semicolon, and each piece is cut at its
    first equals sign into a tag and a value, both taken as they stand.
    The value of a tag is the value of the first piece that has this
    tag. *)
Fixpoint cut_at (sep : ascii) (s : pystr) : pystr * pystr :=
  match s with
  | [] => ([], [])
  | c :: s' =>
      if Ascii.eqb c sep then ([], s')
      else let '(k, v) := cut_at sep s' in (c :: k, v)
  end.

Definition attributes (col : pystr) : list (pystr * pystr) :=
  map (cut_at "="%char) (split ";"%char col).

Definition attr_value (tag col : pystr) : option pystr :=
  match List.find (fun kv => str_eqb kv.1 tag) (attributes col) with
  | Some kv => Some kv.2
  | None => None
  end.

(** The columns kept by [parse_gff2] hold no tab. *)
Definition tab_free_feature (f : feature) : Prop :=
  ~ In tab (ftype f) /\ ~ In tab (fscore f) /\ ~ In tab (fstrand f)
  /\ ~ In tab (fphase f).

(** * Example inputs *)

(** A line of tab-separated columns, with its line end. *)
Definition tsv_line (cols : list pystr) : pystr :=
  join [tab] cols ++ [newline].

Definition quoted (s : string) : pystr := [dquote] ++ str s ++ [dquote].

(** The file [gene1.gff] of the spec's scenario. *)
Definition gene1_text : pystr :=
  tsv_line [str "chr1"; str "GEP"; str "CDS"; str "100"; str "200"; str ".";
            str "+"; str "0"; str "gene_id " ++ quoted "G1"]
  ++ tsv_line [str "chr1"; str "GEP"; str "exon"; str "100"; str "200";
               str "."; str "+"; str "."; str "gene_id " ++ quoted "G1"].

Definition gene1_path : pystr := path_join INPUT_DIR (str "gene1.gff").

Definition example_gff2_attributes : pystr :=
  str "gene_id " ++ [dquote] ++ str "G1" ++ [dquote]
  ++ str "; transcript_id " ++ [dquote] ++ str "T1" ++ [dquote].

(** The file of the scenario with a track line, comment lines and a short
    line added. *)
Definition gene1_commented_text : pystr :=
  str "track name=genes" ++ [newline]
  ++ str "##gff-version 2" ++ [newline]
  ++ tsv_line [str "chr1"; str "GEP"; str "CDS"; str "100"; str "200";
               str "."; str "+"; str "0"; str "gene_id " ++ quoted "G1"]
  ++ str "# a comment" ++ [tab] ++ str "1" ++ [newline]
  ++ tsv_line [str "chr1"; str "GEP"; str "exon"; str "5"]
  ++ [newline]
  ++ tsv_line [str "chr1"; str "GEP"; str "exon"; str "100"; str "200";
               str "."; str "+"; str "."; str "gene_id " ++ quoted "G1"].

Definition reversed_text : pystr :=
  tsv_line [str "chr1"; str "GEP"; str "CDS"; str "200"; str "100"; str ".";
            str "-"; str "0"; str "gene_id " ++ quoted "G1"].

Definition comments_only_text : pystr :=
  str "track name=genes" ++ [newline]
  ++ str "# nothing here" ++ [newline]
  ++ tsv_line [str "chr1"; str "GEP"; str "exon"].

Definition bad_start_text : pystr :=
  tsv_line [str "chr1"; str "GEP"; str "CDS"; str "100"; str "200"; str ".";
            str "+"; str "0"; str "gene_id " ++ quoted "G1"]
  ++ tsv_line [str "chr1"; str "GEP"; str "exon"; str "1e3"; str "200";
               str "."; str "+"; str "."; str "gene_id " ++ quoted "G1"].

Definition ten_column_line : pystr :=
  tsv_line [str "chr1"; str "GEP"; str "CDS"; str "100"; str "200"; str ".";
            str "+"; str "0"; str "gene_id " ++ quoted "G1"; str "extra"].

(** Features of the kinds met in a gene model: only two give a line. *)
Definition mixed_features : list feature :=
  [MkFeature (str "mRNA") 100 200 (str ".") (str "+") (str ".") [];
   MkFeature (str "CDS") 100 200 (str ".") (str "+") (str "0")
     (str "gene_id=G1");
   MkFeature (str "start_codon") 100 102 (str ".") (str "+") (str "0") [];
   MkFeature (str "exon") 100 200 (str ".") (str "+") (str ".")
     (str "gene_id=G1");
   MkFeature (str "cds") 100 200 (str ".") (str "+") (str "0") []].

Definition gene1_gff3_text : pystr :=
  str "##gff-version 3" ++ [newline]
  ++ str "##sequence-region chr1 100 200" ++ [newline]
  ++ tsv_line [str "chr1"; str "."; str "mRNA"; str "100"; str "200";
               str "."; str "+"; str ".";
               str "ID=gene1-PA;transcript_id=gene1-PA"]
  ++ tsv_line [str "chr1"; str "GEP"; str "CDS"; str "100"; str "200";
               str "."; str "+"; str "0"; str "Parent=gene1-PA;gene_id=G1"]
  ++ tsv_line [str "chr1"; str "GEP"; str "exon"; str "100"; str "200";
               str "."; str "+"; str "."; str "Parent=gene1-PA;gene_id=G1"]
  ++ str "###" ++ [newline].

(** * Vocabulary of the further properties *)

(** The record kept for a feature line: its type, its start and end as
    integers, its score, strand and phase, and its attributes translated. *)
Definition feature_of_line (line : pystr) : option feature :=
  s ← py_int (column 3 line);
  e ← py_int (column 4 line);
  Some (MkFeature (column 2 line) s e (column 5 line) (column 6 line)
          (column 7 line) (convert_attributes (column 8 line))).

(** The path read and the path written for a file name of the listing,
    and the text written for a parsed file. *)
Definition in_path (fname : pystr) : pystr := path_join INPUT_DIR fname.

Definition out_path (fname : pystr) : pystr :=
  path_join OUTPUT_DIR (fst (splitext fname) ++ OUTPUT_EXT).

Definition gff3_text (base : pystr) (p : parsed) : pystr :=
  concat (gff3_lines base (p_seqid p) (p_start p) (p_end p) (p_strand p)
            (p_features p)).

(** The files written by a batch whose input files are read from [fsys],
    in order, and how the batch ends. *)
Fixpoint batch_writes (fsys : filesystem) (files : list pystr)
    : list (pystr * pystr) :=
  match files with
  | [] => []
  | f :: rest =>
      match parse_gff2 fsys (in_path f) with
      | Ok p =>
          (out_path f, gff3_text (fst (splitext f)) p)
          :: batch_writes fsys rest
      | Raise _ => []
      end
  end.

Fixpoint batch_outcome (fsys : filesystem) (files : list pystr)
    : result unit :=
  match files with
  | [] => Ok tt
  | f :: rest =>
      match parse_gff2 fsys (in_path f) with
      | Ok _ => batch_outcome fsys rest
      | Raise e => Raise e
      end
  end.

Definition apply_writes (fsys : filesystem) (ws : list (pystr * pystr))
    : filesystem :=
  foldl (fun m kv => <[kv.1 := kv.2]> m) fsys ws.

(** A pair in the quoted form of GFF2, and the same pair in the form of
    GFF3. *)
Definition gff2_item (kv : pystr * pystr) : pystr :=
  kv.1 ++ str " " ++ [dquote] ++ kv.2 ++ [dquote].

Definition gff3_item (kv : pystr * pystr) : pystr :=
  kv.1 ++ str "=" ++ kv.2.

(** A key of the quoted form: not empty, without white space and without
    a double quote. *)
Definition good_key (k : pystr) : Prop :=
  k <> [] /\ forallb (cmatch CNonSpace) k = true /\ ~ In dquote k.

(** A text without a line end, and a text that fits in one column of one
    line: no tab and no line end. *)
Definition no_line_end (s : pystr) : Prop :=
  ~ In newline s /\ ~ In carriage_return s.

Definition clean (s : pystr) : Prop := ~ In tab s /\ no_line_end s.

Definition clean_feature (f : feature) : Prop :=
  clean (ftype f) /\ clean (fscore f) /\ clean (fstrand f)
  /\ clean (fphase f) /\ clean (fattrs f).

(** The value of a decimal numeral read from its first digit on, [acc]
    being the value of the digits already read. *)
Fixpoint uint_value (d : Decimal.uint) (acc : Z) : Z :=
  match d with
  | Decimal.Nil => acc
  | Decimal.D0 l => uint_value l (10 * acc)
  | Decimal.D1 l => uint_value l (10 * acc + 1)
  | Decimal.D2 l => uint_value l (10 * acc + 2)
  | Decimal.D3 l => uint_value l (10 * acc + 3)
  | Decimal.D4 l => uint_value l (10 * acc + 4)
  | Decimal.D5 l => uint_value l (10 * acc + 5)
  | Decimal.D6 l => uint_value l (10 * acc + 6)
  | Decimal.D7 l => uint_value l (10 * acc + 7)
  | Decimal.D8 l => uint_value l (10 * acc + 8)
  | Decimal.D9 l => uint_value l (10 * acc + 9)
  end.

(** The records read back from the lines written: the record of the mRNA
    line and the record of the line of a feature, and the features that
    get a line. *)
Definition mrna_feature (base : pystr) (p : parsed) : feature :=
  MkFeature (str "mRNA") (p_start p) (p_end p) (str ".")
    (fmt (p_strand p)) (str ".")
    (convert_attributes
       (str "ID=" ++ mrna_id base ++ str ";transcript_id=" ++ mrna_id base)).

Definition child_feature (base : pystr) (f : feature) : feature :=
  MkFeature (ftype f) (fstart f) (fend f) (fscore f) (fstrand f) (fphase f)
    (convert_attributes
       (str "Parent=" ++ mrna_id base ++ str ";" ++ fattrs f)).

Definition children (fs : list feature) : list feature :=
  List.filter (fun f => is_child_type (ftype f)) fs.

(** * Properties *)

(** ** The backtracking matcher only finds matches *)

Lemma rep_greedy_sound {R} c (k : pystr -> option R) x s : forall low,
  rep_greedy c low s k = Some x ->
  exists pre s', s = pre ++ s' /\ forallb (cmatch c) pre = true
    /\ (low <= length pre)%nat /\ k s' = Some x.
Proof.
  induction s as [|a s IH]; intros low H; simpl in H.
  - destruct low as [|low]; [|discriminate].
    exists [], []. auto.
  - destruct (cmatch c a) eqn:Ha.
    + destruct (rep_greedy c (Nat.pred low) s k) eqn:Hrec.
      * inversion H; subst.
        destruct (IH _ Hrec) as (pre & s' & -> & Hpre & Hlow & Hk).
        exists (a :: pre), s'. simpl. rewrite Ha, Hpre.
        repeat split; auto. lia.
      * destruct low as [|low]; [|discriminate].
        exists [], (a :: s). auto.
    + destruct low as [|low]; [|discriminate].
      exists [], (a :: s). auto.
Qed.

Lemma rep_lazy_sound {R} c (k : pystr -> option R) x s : forall low,
  rep_lazy c low s k = Some x ->
  exists pre s', s = pre ++ s' /\ forallb (cmatch c) pre = true
    /\ (low <= length pre)%nat /\ k s' = Some x.
Proof.
  induction s as [|a s IH]; intros low H; simpl in H.
  - destruct low as [|low]; [|discriminate].
    destruct (k []) eqn:Hk; [|discriminate].
    exists [], []. inversion H; subst. auto.
  - assert (Hmore : (if cmatch c a then rep_lazy c (Nat.pred low) s k
                     else None) = Some x ->
            exists pre s', a :: s = pre ++ s'
              /\ forallb (cmatch c) pre = true
              /\ (low <= length pre)%nat /\ k s' = Some x).
    { destruct (cmatch c a) eqn:Ha; [|discriminate]. intros Hrec.
      destruct (IH _ Hrec) as (pre & s' & -> & Hpre & Hlow & Hk).
      exists (a :: pre), s'. simpl. rewrite Ha, Hpre.
      repeat split; auto. lia. }
    destruct low as [|low]; [|auto].
    destruct (k (a :: s)) eqn:Hk; [|auto].
    inversion H; subst. exists [], (a :: s). auto.
Qed.

Lemma rmatch_sound {R} r : forall s g (k : pystr -> groups -> option R) x,
  rmatch r s g k = Some x ->
  exists s' g', matches r s g s' g' /\ k s' g' = Some x.
Proof.
  induction r as [c|gr low c|r1 IH1 r2 IH2|r1 IH1 r2 IH2|n r IH];
    intros s g k x H; simpl in H.
  - destruct s as [|a s]; [discriminate|].
    destruct (cmatch c a) eqn:Ha; [|discriminate].
    exists s, g. split; [by constructor|done].
  - assert (exists pre s', s = pre ++ s' /\ forallb (cmatch c) pre = true
              /\ (low <= length pre)%nat /\ k s' g = Some x)
      as (pre & s' & -> & Hpre & Hlow & Hk).
    { destruct gr; [eapply rep_greedy_sound in H|eapply rep_lazy_sound in H];
        exact H. }
    exists s', g. split; [by constructor|done].
  - apply IH1 in H as (s1 & g1 & H1 & H).
    apply IH2 in H as (s2 & g2 & H2 & H).
    exists s2, g2. split; [by econstructor|done].
  - destruct (rmatch r1 s g k) eqn:H1.
    + inversion H; subst. apply IH1 in H1 as (s' & g' & H1 & Hk).
      exists s', g'. split; [by apply matches_alt_l|done].
    + apply IH2 in H as (s' & g' & H2 & Hk).
      exists s', g'. split; [by apply matches_alt_r|done].
  - apply IH in H as (s' & g' & H1 & Hk).
    eexists _, _. split; [by constructor|exact Hk].
Qed.

(** What is left of the input is one of its suffixes. *)
Lemma matches_suffix r s g s' g' :
  matches r s g s' g' -> exists pre, s = pre ++ s'.
Proof.
  induction 1 as [c a s g Ha|gr low c pre s g Hp Hl| r1 r2 s g s1 g1 s2 g2
                  _ [p1 ->] _ [p2 ->]| | |]; eauto.
  - by exists [a].
  - exists (p1 ++ p2). by rewrite <- app_assoc.
Qed.

Lemma match_here_matches r s rest g :
  match_here r s = Some (rest, g) -> matches r s ∅ rest g.
Proof.
  unfold match_here. intros H.
  apply rmatch_sound in H as (s' & g' & Hm & Heq). by inversion Heq; subst.
Qed.

Lemma match_here_suffix r s rest g :
  match_here r s = Some (rest, g) ->
  rest = drop (length s - length rest) s /\ (length rest <= length s)%nat.
Proof.
  intros H. apply match_here_matches, matches_suffix in H as [pre ->].
  rewrite length_app.
  replace (length pre + length rest - length rest)%nat with (length pre)
    by lia.
  rewrite drop_app_length. split; [done|lia].
Qed.

Lemma take_consumed (pre s : pystr) :
  take (length (pre ++ s) - length s) (pre ++ s) = pre.
Proof.
  rewrite length_app.
  replace (length pre + length s - length s)%nat with (length pre) by lia.
  apply take_app_length.
Qed.

Ltac inv_matches :=
  repeat match goal with
    | H : matches (One _) _ _ _ _ |- _ => inversion H; subst; clear H
    | H : matches (Rep _ _ _) _ _ _ _ |- _ => inversion H; subst; clear H
    | H : matches (Cat _ _) _ _ _ _ |- _ => inversion H; subst; clear H
    | H : matches (Grp _ _) _ _ _ _ |- _ => inversion H; subst; clear H
    end.

Lemma pattern_shapes s rest g :
  match_here pattern s = Some (rest, g) ->
  quoted_shape s rest g \/ equals_shape s rest g.
Proof.
  intros H. apply match_here_matches in H. unfold pattern in H.
  inversion H; subst; clear H; inv_matches.
  - apply Ascii.eqb_eq in H0, H2. subst. left.
    eexists _, _, _. rewrite !take_consumed.
    repeat split; eauto. intros ->. simpl in *. lia.
  - apply Ascii.eqb_eq in H0. subst. right.
    eexists _, _. rewrite !take_consumed.
    repeat split; eauto; intros ->; simpl in *; lia.
Qed.

(** ** The matches found by [finditer] *)

Lemma finditer_from_spec r whole s : forall pos skip,
  s = drop pos whole -> (pos <= length whole)%nat ->
  Forall (fun m => (pos + skip <= m_start m)%nat /\ match_at r whole m)
    (finditer_from r pos skip s)
  /\ StronglySorted precedes (finditer_from r pos skip s).
Proof.
  induction s as [|a s IH]; intros pos skip Hs Hpos.
  - destruct skip as [|skip]; simpl.
    + destruct (match_here r []) as [[rest g]|] eqn:Hm;
        [|split; constructor].
      destruct (match_here_suffix _ _ _ _ Hm) as [Hrest Hlen].
      destruct rest; [|simpl in Hlen; lia]. simpl.
      split; repeat constructor; simpl; try lia.
      replace (pos + 0)%nat with pos by lia. by rewrite <- Hs.
    + split; constructor.
  - assert (Hwhole : length (a :: s) = (length whole - pos)%nat)
      by (rewrite Hs; apply length_drop).
    simpl in Hwhole.
    assert (Htail : s = drop (S pos) whole).
    { replace (S pos) with (pos + 1)%nat by lia.
      rewrite <- drop_drop, <- Hs. reflexivity. }
    destruct skip as [|skip]; simpl.
    + destruct (match_here r (a :: s)) as [[rest g]|] eqn:Hm.
      * destruct (match_here_suffix _ _ _ _ Hm) as [Hrest Hlen].
        simpl in Hrest, Hlen.
        set (n := (S (length s) - length rest)%nat) in *.
        destruct (IH (S pos) (Nat.pred n) Htail) as [Hall Hsorted]; [lia|].
        split.
        -- constructor.
           ++ simpl. split; [lia|]. split; [simpl; lia|].
              split; [simpl; lia|]. simpl.
              rewrite <- drop_drop, <- Hs, <- Hrest. exact Hm.
           ++ eapply Forall_impl; [exact Hall|].
              intros m [Hle Hat]. split; [lia|exact Hat].
        -- constructor; [exact Hsorted|].
           eapply Forall_impl; [exact Hall|].
           intros m [Hle _]. unfold precedes. simpl. lia.
      * destruct (IH (S pos) 0%nat Htail) as [Hall Hsorted]; [lia|].
        split; [|exact Hsorted].
        eapply Forall_impl; [exact Hall|].
        intros m [Hle Hat]. split; [lia|exact Hat].
    + destruct (IH (S pos) skip Htail) as [Hall Hsorted]; [lia|].
      split; [|exact Hsorted].
      eapply Forall_impl; [exact Hall|].
      intros m [Hle Hat]. split; [lia|exact Hat].
Qed.

Lemma finditer_match_at r s :
  Forall (match_at r s) (finditer r s).
Proof.
  destruct (finditer_from_spec r s s 0 0) as [H _]; [done|lia|].
  eapply Forall_impl; [exact H|]. by intros m [_ Hm].
Qed.

Lemma finditer_sorted r s : StronglySorted precedes (finditer r s).
Proof.
  destruct (finditer_from_spec r s s 0 0) as [_ H]; [done|lia|]. exact H.
Qed.

(** On a match of [pattern] the loop body takes a key and a value that
    are both set; the first branch wins whenever it matched. *)
Lemma key_val_defined s m :
  match_at pattern s m ->
  exists key val,
    key_val m = (Some key, Some val) /\ key <> []
    /\ render_attr m = key ++ str "=" ++ val.
Proof.
  intros (_ & _ & Hm). unfold render_attr, key_val, group.
  apply pattern_shapes in Hm as [(key & ws & val & _ & Hk & _ & _ & _ & ->)
                                |(key & val & _ & Hk & _ & _ & _ & ->)].
  - exists key, val. simplify_map_eq.
    destruct key; [done|]. simpl. done.
  - exists key, val. simplify_map_eq. simpl. done.
Qed.

(** ** convert_attributes *)

Lemma convert_attributes_pairs attr_str :
  exists kvs : list (pystr * pystr),
    Forall2 (fun m kv => key_val m = (Some kv.1, Some kv.2))
      (finditer pattern attr_str) kvs
    /\ convert_attributes attr_str
       = join (str ";") (map (fun kv => kv.1 ++ str "=" ++ kv.2) kvs).
Proof.
  unfold convert_attributes.
  pose proof (finditer_match_at pattern attr_str) as Hall.
  induction Hall as [|m ms Hm _ (kvs & Hkvs & IH)].
  - by exists [].
  - destruct (key_val_defined _ _ Hm) as (key & val & Hkv & _ & Hr).
    exists ((key, val) :: kvs). split; [by constructor|].
    assert (Hmap : map render_attr ms
                   = map (fun kv => kv.1 ++ str "=" ++ kv.2) kvs).
    { clear -Hkvs. induction Hkvs as [|m' kv ms' kvs' Hkv _ IH]; [done|].
      cbn [map]. f_equal; [|exact IH]. unfold render_attr. by rewrite Hkv. }
    cbn [map]. by rewrite Hmap, Hr.
Qed.

(** C4.  Attribute translation preserves order.  For every attribute
    string the matches found by the scan are matches of the pattern at
    their offsets, each one ends before the next one starts (left to
    right), each one yields a key and a value, and the result is the
    [key=value] texts of these pairs, in that order, joined with a
    semicolon.  The spec's example, gene_id G1 then transcript_id T1 in
    quoted form, gives [gene_id=G1;transcript_id=T1]. *)
Theorem convert_attributes_order_preserving :
  (forall attr_str,
     Forall (match_at pattern attr_str) (finditer pattern attr_str)
     /\ StronglySorted precedes (finditer pattern attr_str)
     /\ exists kvs : list (pystr * pystr),
          Forall2 (fun m kv => key_val m = (Some kv.1, Some kv.2))
            (finditer pattern attr_str) kvs
          /\ convert_attributes attr_str
             = join (str ";") (map (fun kv => kv.1 ++ str "=" ++ kv.2) kvs))
  /\ convert_attributes example_gff2_attributes
     = str "gene_id=G1;transcript_id=T1".
Proof.
  split; [|by vm_compute].
  intros attr_str. split; [apply finditer_match_at|].
  split; [apply finditer_sorted|apply convert_attributes_pairs].
Qed.

Lemma shape_has_mark s rest g :
  quoted_shape s rest g \/ equals_shape s rest g ->
  In dquote s \/ In "="%char s.
Proof.
  intros [(key & ws & val & -> & _)|(key & val & -> & _)].
  - left. rewrite !in_app_iff. right. right. by left.
  - right. rewrite !in_app_iff. right. by left.
Qed.

Lemma finditer_no_mark s :
  ~ In dquote s -> ~ In "="%char s -> finditer pattern s = [].
Proof.
  intros Hq He. pose proof (finditer_match_at pattern s) as Hall.
  destruct (finditer pattern s) as [|m ms]; [done|].
  inversion Hall as [|? ? (_ & _ & Hm) _]; subst.
  apply pattern_shapes, shape_has_mark in Hm.
  assert (Hin : forall c, In c (drop (m_start m) s) -> In c s).
  { intros c Hc. rewrite <- (take_drop (m_start m) s). apply in_app_iff.
    by right. }
  destruct Hm as [Hm|Hm]; apply Hin in Hm; contradiction.
Qed.

(** C5.  [convert_attributes] has no failure: every step of its body is
    defined on every string (the embedding is a total function), and on
    every match the key and the value it formats are set, never an absent
    group.  Text that takes part in no match leaves no trace: a string
    with no double quote and no equals sign gives the empty string, as
    does the empty string; a key with an empty quoted value gives the key
    followed by an equals sign. *)
Theorem convert_attributes_total :
  (forall attr_str,
     Forall (fun m => exists key val, key_val m = (Some key, Some val)
                      /\ render_attr m = key ++ str "=" ++ val)
       (finditer pattern attr_str))
  /\ (forall attr_str,
        ~ In dquote attr_str -> ~ In "="%char attr_str ->
        convert_attributes attr_str = [])
  /\ convert_attributes [] = []
  /\ convert_attributes (str "key " ++ [dquote; dquote]) = str "key="
  /\ convert_attributes
       (str "a=b junk c " ++ [dquote] ++ str "d" ++ [dquote] ++ str " =")
     = str "a=b;c=d".
Proof.
  split; [|split; [|by vm_compute]].
  - intros attr_str.
    eapply Forall_impl; [apply finditer_match_at|].
    intros m Hm. destruct (key_val_defined _ _ Hm) as (k & v & ? & _ & ?).
    by exists k, v.
  - intros attr_str Hq He. unfold convert_attributes.
    by rewrite finditer_no_mark.
Qed.

Lemma convert_attributes_total_witness :
  convert_attributes (str "no pairs; in this text") = [].
Proof.
  apply (proj1 (proj2 convert_attributes_total)).
  - vm_compute. intuition discriminate.
  - vm_compute. intuition discriminate.
Defined.

(** ** parse_gff2: lines that are skipped, lines that are features *)

Lemma length_nine {A} (l : list A) :
  length l = 9%nat ->
  exists a b c d e f g h i, l = [a; b; c; d; e; f; g; h; i].
Proof.
  intros H. do 9 (destruct l as [|? l]; [discriminate|]).
  destruct l; [|discriminate]. eauto 12.
Qed.

Lemma length_ten {A} (l : list A) :
  (10 <= length l)%nat ->
  exists a b c d e f g h i j rest,
    l = [a; b; c; d; e; f; g; h; i; j] ++ rest.
Proof.
  intros H. do 10 (destruct l as [|? l]; [simpl in H; lia|]). eauto 14.
Qed.

Ltac nine_columns H :=
  let Hc := fresh "Hcols" in
  destruct (length_nine _ H) as (?&?&?&?&?&?&?&?&?&Hc);
  unfold column in *; rewrite Hc in *; clear Hc; simpl in *.

Lemma skipped_spec line :
  skipped line = is_comment line || (length (columns line) <? 9)%nat.
Proof.
  unfold skipped, is_comment, columns.
  destruct (startswith line (str "#")), (startswith line (str "##")),
    (startswith line (str "track")); reflexivity.
Qed.

Lemma parse_line_skipped st line :
  skipped line = true -> parse_line st line = Ok st.
Proof.
  rewrite skipped_spec. unfold parse_line. intros H.
  destruct (is_comment line); [done|]. simpl in H. by rewrite H.
Qed.

Lemma parse_line_feature st line s e :
  feature_line line = true ->
  length (columns line) = 9%nat ->
  py_int (column 3 line) = Some s -> py_int (column 4 line) = Some e ->
  parse_line st line = Ok (push_feature st line s e).
Proof.
  unfold feature_line, push_feature, column. rewrite skipped_spec.
  unfold parse_line. intros Hf Hlen Hs He.
  destruct (is_comment line); [done|]. nine_columns Hlen.
  unfold int_or_raise. rewrite Hs. simpl. rewrite He. done.
Qed.

Lemma parse_line_bad_start st line :
  feature_line line = true ->
  length (columns line) = 9%nat ->
  py_int (column 3 line) = None ->
  parse_line st line = Raise (ValueError_invalid_literal (column 3 line)).
Proof.
  unfold feature_line, column. rewrite skipped_spec.
  unfold parse_line. intros Hf Hlen Hs.
  destruct (is_comment line); [done|]. nine_columns Hlen.
  unfold int_or_raise. by rewrite Hs.
Qed.

Lemma parse_line_bad_end st line s :
  feature_line line = true ->
  length (columns line) = 9%nat ->
  py_int (column 3 line) = Some s -> py_int (column 4 line) = None ->
  parse_line st line = Raise (ValueError_invalid_literal (column 4 line)).
Proof.
  unfold feature_line, column. rewrite skipped_spec.
  unfold parse_line. intros Hf Hlen Hs He.
  destruct (is_comment line); [done|]. nine_columns Hlen.
  unfold int_or_raise. rewrite Hs. simpl. by rewrite He.
Qed.

Lemma parse_line_too_many st line :
  is_comment line = false ->
  (10 <= length (columns line))%nat ->
  parse_line st line = Raise ValueError_too_many_values.
Proof.
  unfold parse_line. intros -> Hlen.
  destruct (Nat.ltb_spec (length (columns line)) 9); [lia|].
  destruct (length_ten _ Hlen) as (?&?&?&?&?&?&?&?&?&?&?&->). reflexivity.
Qed.

(** Every line is of exactly one of these kinds. *)
Lemma parse_line_cases st line :
  (skipped line = true /\ parse_line st line = Ok st)
  \/ (feature_line line = true /\ exists e, parse_line st line = Raise e)
  \/ (feature_line line = true /\ well_formed line /\
      exists s e, py_int (column 3 line) = Some s
        /\ py_int (column 4 line) = Some e
        /\ parse_line st line = Ok (push_feature st line s e)).
Proof.
  destruct (skipped line) eqn:Hsk.
  { left. split; [done|]. by apply parse_line_skipped. }
  right. assert (Hf : feature_line line = true)
    by (unfold feature_line; by rewrite Hsk).
  rewrite skipped_spec in Hsk. apply orb_false_iff in Hsk as [Hc Hlen].
  apply Nat.ltb_ge in Hlen.
  destruct (decide (length (columns line) = 9%nat)) as [H9|H9].
  - destruct (py_int (column 3 line)) as [s|] eqn:Hs.
    + destruct (py_int (column 4 line)) as [e|] eqn:He.
      * right. split; [done|]. split.
        { unfold well_formed. rewrite Hs, He. eauto. }
        exists s, e. repeat split; try done. by apply parse_line_feature.
      * left. split; [done|]. eexists. by eapply parse_line_bad_end.
    + left. split; [done|]. eexists. by eapply parse_line_bad_start.
  - left. split; [done|]. eexists. apply parse_line_too_many; [done|lia].
Qed.

(** ** parse_gff2: the loop *)

Lemma parse_loop_app st l1 l2 :
  parse_loop st (l1 ++ l2) = st' ← parse_loop st l1; parse_loop st' l2.
Proof.
  revert st. induction l1 as [|l l1 IH]; intros st; [done|].
  simpl. destruct (parse_line st l) as [st'|e]; simpl; [apply IH|done].
Qed.

Lemma parse_loop_filter st lines :
  parse_loop st (List.filter feature_line lines) = parse_loop st lines.
Proof.
  revert st. induction lines as [|l lines IH]; intros st; [done|].
  simpl. unfold feature_line at 1. destruct (skipped l) eqn:Hsk; simpl.
  - by rewrite parse_line_skipped, IH.
  - destruct (parse_line st l); simpl; [apply IH|done].
Qed.

(** The coordinates collected by a loop that ends normally are those of
    the feature lines, in order; all of them are well formed. *)
Lemma parse_loop_collects lines : forall st st',
  parse_loop st lines = Ok st' ->
  exists coords : list (Z * Z),
    Forall2 (fun l c => well_formed l /\ py_int (column 3 l) = Some c.1
                        /\ py_int (column 4 l) = Some c.2)
      (List.filter feature_line lines) coords
    /\ starts st' = starts st ++ map fst coords
    /\ ends st' = ends st ++ map snd coords
    /\ map fstart (features st') = map fstart (features st) ++ map fst coords
    /\ map fend (features st') = map fend (features st) ++ map snd coords.
Proof.
  induction lines as [|l lines IH]; intros st st' H; simpl in H.
  - inversion H; subst. exists []. simpl. rewrite !app_nil_r. auto.
  - destruct (parse_line_cases st l)
      as [[Hsk Hl]|[[Hf [e Hl]]|(Hf & Hwf & s & e & Hs & He & Hl)]];
      rewrite Hl in H; simpl in H; [| discriminate |].
    + simpl. unfold feature_line at 1. rewrite Hsk. simpl. by apply IH.
    + apply IH in H as (coords & Hc & H1 & H2 & H3 & H4).
      exists ((s, e) :: coords). simpl. rewrite Hf. simpl in *.
      rewrite H1, H2, H3, H4, !map_app, <- !app_assoc. simpl.
      repeat split; try done. by constructor.
Qed.

(** The loop ends normally when every feature line is well formed. *)
Lemma parse_loop_total lines : forall st,
  Forall well_formed (List.filter feature_line lines) ->
  exists st', parse_loop st lines = Ok st'.
Proof.
  induction lines as [|l lines IH]; intros st Hall; simpl; [by eexists|].
  simpl in Hall.
  destruct (parse_line_cases st l)
    as [[Hsk Hl]|[[Hf [e Hl]]|(Hf & Hwf & s & e & Hs & He & Hl)]].
  - rewrite Hl. simpl. apply IH. unfold feature_line in Hall at 1.
    by rewrite Hsk in Hall.
  - rewrite Hf in Hall. inversion Hall as [|? ? (H9 & [s Hs] & [e' He]) _].
    subst. rewrite (parse_line_feature st l s e' Hf H9 Hs He) in Hl.
    discriminate.
  - rewrite Hl. simpl. apply IH. rewrite Hf in Hall. by inversion Hall.
Qed.

Lemma fold_left_min xs : forall x, is_min (fold_left Z.min xs x) (x :: xs).
Proof.
  induction xs as [|y xs IH]; intros x; simpl.
  - split; [by left|]. intros ? [<-|[]]. lia.
  - destruct (IH (Z.min x y)) as [Hin Hle]. split.
    + destruct Hin as [Hin|Hin]; [|by right; right].
      rewrite <- Hin. destruct (Z.min_spec x y) as [[_ ->]|[_ ->]]; simpl; auto.
    + intros z Hz. assert (fold_left Z.min xs (Z.min x y) <= Z.min x y)
        by (apply Hle; by left).
      destruct Hz as [<-|[<-|Hz]]; [lia|lia|]. apply Hle. by right.
Qed.

Lemma fold_left_max xs : forall x, is_max (fold_left Z.max xs x) (x :: xs).
Proof.
  induction xs as [|y xs IH]; intros x; simpl.
  - split; [by left|]. intros ? [<-|[]]. lia.
  - destruct (IH (Z.max x y)) as [Hin Hle]. split.
    + destruct Hin as [Hin|Hin]; [|by right; right].
      rewrite <- Hin. destruct (Z.max_spec x y) as [[_ ->]|[_ ->]]; simpl; auto.
    + intros z Hz. assert (Z.max x y <= fold_left Z.max xs (Z.max x y))
        by (apply Hle; by left).
      destruct Hz as [<-|[<-|Hz]]; [lia|lia|]. apply Hle. by right.
Qed.

Lemma py_min_spec l z : py_min l = Ok z -> is_min z l.
Proof.
  destruct l as [|x xs]; [done|]. intros H. inversion H.
  apply fold_left_min.
Qed.

Lemma py_max_spec l z : py_max l = Ok z -> is_max z l.
Proof.
  destruct l as [|x xs]; [done|]. intros H. inversion H.
  apply fold_left_max.
Qed.

(** ** C1: the span *)

Lemma parse_lines_span lines r :
  parse_lines lines = Ok r ->
  exists coords : list (Z * Z),
    Forall2 (fun l c => well_formed l /\ py_int (column 3 l) = Some c.1
                        /\ py_int (column 4 l) = Some c.2)
      (List.filter feature_line lines) coords
    /\ is_min (p_start r) (map fst coords)
    /\ is_max (p_end r) (map snd coords)
    /\ map fstart (p_features r) = map fst coords
    /\ map fend (p_features r) = map snd coords.
Proof.
  unfold parse_lines. intros H.
  destruct (parse_loop pstate0 lines) as [st|] eqn:Hloop; [|done].
  simpl in H.
  destruct (py_min (starts st)) as [lo|] eqn:Hlo; [|done]. simpl in H.
  destruct (py_max (ends st)) as [hi|] eqn:Hhi; [|done]. simpl in H.
  inversion H; subst; clear H. simpl.
  apply parse_loop_collects in Hloop as (coords & Hc & H1 & H2 & H3 & H4).
  simpl in *. exists coords. rewrite <- H1, <- H2.
  split; [done|]. split; [by apply py_min_spec|].
  split; [by apply py_max_spec|]. split; congruence.
Qed.

(** C1.  The span returned by [parse_gff2] is exact: whenever it returns,
    its start is the smallest of the start coordinates parsed from the
    feature lines of the file (the lines that pass the comment and column
    tests) and its end is the largest of their end coordinates.  It does
    return when the file has at least one feature line and its feature
    lines are well formed (9 columns, integer start and end). *)
Theorem parse_gff2_span_exact (fsys : filesystem) (path text : pystr) :
  fsys !! path = Some text ->
  (forall r : parsed,
     parse_gff2 fsys path = Ok r ->
     exists coords : list (Z * Z),
       Forall2 (fun l c => py_int (column 3 l) = Some c.1
                           /\ py_int (column 4 l) = Some c.2)
         (List.filter feature_line (readlines text)) coords
       /\ is_min (p_start r) (map fst coords)
       /\ is_max (p_end r) (map snd coords)
       /\ map fstart (p_features r) = map fst coords
       /\ map fend (p_features r) = map snd coords)
  /\ (List.filter feature_line (readlines text) <> [] ->
      Forall well_formed (List.filter feature_line (readlines text)) ->
      exists r : parsed, parse_gff2 fsys path = Ok r).
Proof.
  intros Hfile. unfold parse_gff2. rewrite Hfile. split.
  - intros r Hr.
    destruct (parse_lines_span _ _ Hr) as (coords & Hco & Hrest).
    exists coords. split; [|exact Hrest].
    eapply Forall2_impl; [exact Hco|]. by intros l c (_ & ? & ?).
  - intros Hne Hwf.
    destruct (parse_loop_total (readlines text) pstate0 Hwf) as [st Hloop].
    pose proof (parse_loop_collects _ _ _ Hloop) as (cs & Hc & H1 & H2 & _).
    simpl in H1, H2. unfold parse_lines. rewrite Hloop. simpl.
    rewrite H1, H2. destruct cs as [|[s e] cs]; [|simpl; by eexists].
    inversion Hc as [Hnil|]. by rewrite <- Hnil in Hne.
Qed.

Lemma parse_gff2_span_exact_witness :
  exists r : parsed,
    parse_gff2 {[gene1_path := gene1_text]} gene1_path = Ok r
    /\ exists coords : list (Z * Z),
         Forall2 (fun l c => py_int (column 3 l) = Some c.1
                             /\ py_int (column 4 l) = Some c.2)
           (List.filter feature_line (readlines gene1_text)) coords
         /\ is_min (p_start r) (map fst coords)
         /\ is_max (p_end r) (map snd coords)
         /\ map fstart (p_features r) = map fst coords
         /\ map fend (p_features r) = map snd coords.
Proof.
  destruct (parse_gff2_span_exact {[gene1_path := gene1_text]} gene1_path
              gene1_text) as [Hexact Hreturns].
  - apply lookup_singleton_eq.
  - destruct Hreturns as [r Hr].
    + vm_compute. discriminate.
    + vm_compute. repeat constructor; eexists; reflexivity.
    + exists r. split; [exact Hr|]. by apply Hexact.
Defined.

(** The scenario itself: the parsed span of [gene1.gff] is 100 to 200. *)
Example parse_gene1 :
  parse_gff2 {[gene1_path := gene1_text]} gene1_path
  = Ok (MkParsed (Some (str "chr1")) 100 200 (Some (str "+"))
          [MkFeature (str "CDS") 100 200 (str ".") (str "+") (str "0")
             (str "gene_id=G1");
           MkFeature (str "exon") 100 200 (str ".") (str "+") (str ".")
             (str "gene_id=G1")]).
Proof.
  unfold parse_gff2. rewrite lookup_singleton_eq. by vm_compute.
Qed.

(** ** C6: skipped lines *)

Lemma filter_feature_line_app pre line post :
  skipped line = true ->
  List.filter feature_line (pre ++ line :: post)
  = List.filter feature_line (pre ++ post).
Proof.
  intros Hsk. rewrite !List.filter_app. simpl.
  unfold feature_line at 2. by rewrite Hsk.
Qed.

Lemma parse_lines_filter lines :
  parse_lines (List.filter feature_line lines) = parse_lines lines.
Proof. unfold parse_lines. by rewrite parse_loop_filter. Qed.

(** C6.  A line that begins with [#], [##] or [track], or that has fewer
    than 9 tab-separated columns, is passed over without an exception and
    leaves the state of the loop as it was; the result of parsing (value
    or exception) is the same with the line as without it, wherever it
    stands; two files with the same feature lines parse to the same
    result. *)
Theorem skipped_lines_ignored :
  (forall st line, skipped line = true -> parse_line st line = Ok st)
  /\ (forall pre line post,
        skipped line = true ->
        parse_lines (pre ++ line :: post) = parse_lines (pre ++ post))
  /\ (forall (fsys : filesystem) p1 p2 t1 t2,
        fsys !! p1 = Some t1 -> fsys !! p2 = Some t2 ->
        List.filter feature_line (readlines t1)
        = List.filter feature_line (readlines t2) ->
        parse_gff2 fsys p1 = parse_gff2 fsys p2).
Proof.
  split; [exact parse_line_skipped|]. split.
  - intros pre line post Hsk.
    rewrite <- (parse_lines_filter (pre ++ line :: post)).
    rewrite <- (parse_lines_filter (pre ++ post)).
    by rewrite filter_feature_line_app.
  - intros fsys p1 p2 t1 t2 H1 H2 Heq. unfold parse_gff2.
    rewrite H1, H2, <- (parse_lines_filter (readlines t1)), Heq.
    apply parse_lines_filter.
Qed.

Lemma skipped_lines_ignored_witness :
  parse_line pstate0 (str "#chr1" ++ [tab] ++ str "x") = Ok pstate0
  /\ parse_lines (readlines gene1_text
                  ++ (str "track 1" ++ [newline]) :: readlines gene1_text)
     = parse_lines (readlines gene1_text ++ readlines gene1_text)
  /\ parse_gff2 (<[str "b.gff" := gene1_commented_text]>
                   {[gene1_path := gene1_text]}) gene1_path
     = parse_gff2 (<[str "b.gff" := gene1_commented_text]>
                     {[gene1_path := gene1_text]}) (str "b.gff").
Proof.
  destruct skipped_lines_ignored as (H1 & H2 & H3).
  split; [|split].
  - apply H1. by vm_compute.
  - apply H2. by vm_compute.
  - apply (H3 _ _ _ gene1_text gene1_commented_text).
    + rewrite lookup_insert_ne; [apply lookup_singleton_eq|].
      by vm_compute.
    + apply lookup_insert_eq.
    + by vm_compute.
Defined.

(** ** C7: order of the span *)

(** C7, as stated, fails: a file whose only feature line has its start
    after its end parses to the span 200 to 100. *)
Lemma span_order_counterexample :
  ~ (forall (fsys : filesystem) path r,
       parse_gff2 fsys path = Ok r ->
       p_features r <> [] -> p_start r <= p_end r).
Proof.
  intros H.
  specialize (H {[str "rev.gff" := reversed_text]} (str "rev.gff")
                (MkParsed (Some (str "chr1")) 200 100 (Some (str "-"))
                   [MkFeature (str "CDS") 200 100 (str ".") (str "-")
                      (str "0") (str "gene_id=G1")])).
  simpl in H. assert (200 <= 100); [|lia]. apply H; [|done].
  unfold parse_gff2. rewrite lookup_singleton_eq. by vm_compute.
Qed.

(** C7, amended.  When [parse_gff2] returns and at least one of the
    features it read has its start no later than its end, the span has
    its start no later than its end. *)
Theorem span_start_le_end (fsys : filesystem) (path : pystr) (r : parsed) :
  parse_gff2 fsys path = Ok r ->
  (exists f, In f (p_features r) /\ fstart f <= fend f) ->
  p_start r <= p_end r.
Proof.
  unfold parse_gff2. destruct (fsys !! path) as [text|]; [|done].
  intros Hr (f & Hin & Hle).
  apply parse_lines_span in Hr as (coords & _ & [_ Hlo] & [_ Hhi] & Hs & He).
  rewrite <- Hs in Hlo. rewrite <- He in Hhi.
  assert (p_start r <= fstart f) by (apply Hlo; by apply in_map).
  assert (fend f <= p_end r) by (apply Hhi; by apply in_map).
  lia.
Qed.

Lemma span_start_le_end_witness :
  p_start (MkParsed (Some (str "chr1")) 100 200 (Some (str "+"))
          [MkFeature (str "CDS") 100 200 (str ".") (str "+") (str "0")
             (str "gene_id=G1");
           MkFeature (str "exon") 100 200 (str ".") (str "+") (str ".")
             (str "gene_id=G1")])
  <= p_end (MkParsed (Some (str "chr1")) 100 200 (Some (str "+"))
          [MkFeature (str "CDS") 100 200 (str ".") (str "+") (str "0")
             (str "gene_id=G1");
           MkFeature (str "exon") 100 200 (str ".") (str "+") (str ".")
             (str "gene_id=G1")]).
Proof.
  apply (span_start_le_end {[gene1_path := gene1_text]} gene1_path).
  - unfold parse_gff2. rewrite lookup_singleton_eq. by vm_compute.
  - eexists. split; [by left|]. simpl. lia.
Defined.

(** ** Exceptions of parse_gff2 reach the top of main *)

Lemma convert_file_raise (fsys : filesystem) fname e :
  parse_gff2 fsys (path_join INPUT_DIR fname) = Raise e ->
  convert_file fsys fname = (fsys, Raise e).
Proof. unfold convert_file. by intros ->. Qed.

Lemma convert_files_app (fsys : filesystem) l1 l2 :
  convert_files fsys (l1 ++ l2)
  = match convert_files fsys l1 with
    | (fsys1, Ok _) => convert_files fsys1 l2
    | (fsys1, Raise e) => (fsys1, Raise e)
    end.
Proof.
  revert fsys. induction l1 as [|f l1 IH]; intros fsys; [done|].
  simpl. destruct (convert_file fsys f) as [fsys' [[]|e]]; [apply IH|done].
Qed.

(** When [parse_gff2] raises on a file, the batch ends there with that
    exception, and the file system is as the files before it left it:
    nothing is written for the file. *)
Lemma abort_propagates (fsys fsys1 : filesystem) before fname rest e :
  convert_files fsys before = (fsys1, Ok tt) ->
  parse_gff2 fsys1 (path_join INPUT_DIR fname) = Raise e ->
  convert_file fsys1 fname = (fsys1, Raise e)
  /\ convert_files fsys (before ++ fname :: rest) = (fsys1, Raise e)
  /\ forall listing,
       List.filter is_input_file listing = before ++ fname :: rest ->
       main listing fsys = (fsys1, Raise e).
Proof.
  intros Hbefore Hparse.
  pose proof (convert_file_raise _ _ _ Hparse) as Hfile.
  assert (Hfiles : convert_files fsys (before ++ fname :: rest)
                   = (fsys1, Raise e)).
  { rewrite convert_files_app, Hbefore. simpl. by rewrite Hfile. }
  split; [done|]. split; [done|].
  intros listing Hl. unfold main. rewrite Hl.
  destruct (before ++ fname :: rest) eqn:Heq; [|done].
  by destruct before.
Qed.

Lemma file_with_raising_line (fsys : filesystem) path text pre line post :
  fsys !! path = Some text ->
  readlines text = pre ++ line :: post ->
  (forall st, exists e, parse_line st line = Raise e) ->
  exists e, parse_gff2 fsys path = Raise e
    /\ (forall st1, parse_loop pstate0 pre = Ok st1 ->
                    parse_line st1 line = Raise e).
Proof.
  intros Hfile Hlines Hline. unfold parse_gff2, parse_lines.
  rewrite Hfile, Hlines, parse_loop_app.
  destruct (parse_loop pstate0 pre) as [st1|e]; simpl.
  - destruct (Hline st1) as [e He]. rewrite He. simpl.
    exists e. split; [done|]. intros ? [= <-]. exact He.
  - exists e. split; [done|]. discriminate.
Qed.

(** ** C8: no feature line *)

(** C8.  When a file has no feature line (every line fails the comment or
    the column test), [parse_gff2] raises the exception of [min] on an
    empty list (a [ValueError] in Python); [main] does not catch it: the
    batch ends there, and the file system is unchanged by that file, so no
    output file is written for it.  More generally a file none of whose
    feature lines is well formed never parses, and nothing is written for
    it. *)
Theorem no_feature_line_fails :
  (forall (fsys : filesystem) path text,
     fsys !! path = Some text ->
     List.filter feature_line (readlines text) = [] ->
     parse_gff2 fsys path = Raise ValueError_empty_sequence)
  /\ (forall (fsys fsys1 : filesystem) before fname rest text,
        convert_files fsys before = (fsys1, Ok tt) ->
        fsys1 !! path_join INPUT_DIR fname = Some text ->
        List.filter feature_line (readlines text) = [] ->
        convert_file fsys1 fname = (fsys1, Raise ValueError_empty_sequence)
        /\ convert_files fsys (before ++ fname :: rest)
           = (fsys1, Raise ValueError_empty_sequence)
        /\ forall listing,
             List.filter is_input_file listing = before ++ fname :: rest ->
             main listing fsys = (fsys1, Raise ValueError_empty_sequence))
  /\ (forall (fsys fsys1 : filesystem) before fname rest text,
        convert_files fsys before = (fsys1, Ok tt) ->
        fsys1 !! path_join INPUT_DIR fname = Some text ->
        Forall (fun l => ~ well_formed l)
          (List.filter feature_line (readlines text)) ->
        exists e,
          parse_gff2 fsys1 (path_join INPUT_DIR fname) = Raise e
          /\ convert_file fsys1 fname = (fsys1, Raise e)
          /\ convert_files fsys (before ++ fname :: rest)
             = (fsys1, Raise e)).
Proof.
  assert (Hparse : forall (fsys : filesystem) path text,
            fsys !! path = Some text ->
            List.filter feature_line (readlines text) = [] ->
            parse_gff2 fsys path = Raise ValueError_empty_sequence).
  { intros fsys path text Hfile Hnone. unfold parse_gff2.
    by rewrite Hfile, <- parse_lines_filter, Hnone. }
  split; [exact Hparse|]. split.
  - intros fsys fsys1 before fname rest text Hbefore Hfile Hnone.
    apply abort_propagates; [done|]. by eapply Hparse.
  - intros fsys fsys1 before fname rest text Hbefore Hfile Hnone.
    assert (exists e, parse_gff2 fsys1 (path_join INPUT_DIR fname) = Raise e)
      as [e He].
    { destruct (List.filter feature_line (readlines text)) as [|l ls] eqn:Hf.
      - eexists. by eapply Hparse.
      - unfold parse_gff2, parse_lines.
        rewrite Hfile, <- parse_loop_filter, Hf. simpl.
        inversion Hnone as [|? ? Hl _]; subst.
        destruct (parse_line_cases pstate0 l)
          as [[Hsk _]|[[_ [e ->]]|(_ & Hwf & _)]]; [|by exists e|done].
        assert (In l (List.filter feature_line (readlines text)))
          as Hin by (rewrite Hf; by left).
        apply filter_In in Hin as [_ Hfl]. unfold feature_line in Hfl.
        by rewrite Hsk in Hfl. }
    exists e. split; [done|].
    destruct (abort_propagates _ _ _ _ rest _ Hbefore He) as (? & ? & _).
    done.
Qed.

Lemma no_feature_line_fails_witness :
  parse_gff2 {[path_join INPUT_DIR (str "empty.gff") := comments_only_text]}
    (path_join INPUT_DIR (str "empty.gff"))
  = Raise ValueError_empty_sequence
  /\ main [str "notes.txt"; str "empty.gff"; str "gene1.gff"]
       {[path_join INPUT_DIR (str "empty.gff") := comments_only_text]}
     = ({[path_join INPUT_DIR (str "empty.gff") := comments_only_text]},
        Raise ValueError_empty_sequence)
  /\ exists e,
       convert_file
         {[path_join INPUT_DIR (str "wide.gff") := ten_column_line]}
         (str "wide.gff")
       = ({[path_join INPUT_DIR (str "wide.gff") := ten_column_line]},
          Raise e).
Proof.
  destruct no_feature_line_fails as (H1 & H2 & H3). split; [|split].
  - apply (H1 _ _ comments_only_text);
      [apply lookup_singleton_eq|by vm_compute].
  - destruct (H2 {[path_join INPUT_DIR (str "empty.gff")
                   := comments_only_text]}
                 {[path_join INPUT_DIR (str "empty.gff")
                   := comments_only_text]}
                 [] (str "empty.gff") [str "gene1.gff"] comments_only_text)
      as (_ & _ & H); [done|apply lookup_singleton_eq|by vm_compute|].
    apply H. by vm_compute.
  - destruct (H3 {[path_join INPUT_DIR (str "wide.gff") := ten_column_line]}
                 {[path_join INPUT_DIR (str "wide.gff") := ten_column_line]}
                 [] (str "wide.gff") [] ten_column_line)
      as (e & _ & He & _); [done|apply lookup_singleton_eq| |by exists e].
    change (List.filter feature_line (readlines ten_column_line))
      with [ten_column_line].
    constructor; [|constructor].
    intros [Hlen _]. vm_compute in Hlen. discriminate Hlen.
Defined.

(** ** C9: a start or an end that is not an integer *)

Lemma parse_line_bad_coordinate st line :
  bad_coordinate_line line ->
  exists field,
    (field = column 3 line \/ field = column 4 line)
    /\ py_int field = None
    /\ parse_line st line = Raise (ValueError_invalid_literal field).
Proof.
  intros (Hf & H9 & Hbad).
  destruct (py_int (column 3 line)) as [s|] eqn:Hs.
  - destruct Hbad as [|He]; [done|]. exists (column 4 line).
    split; [by right|]. split; [done|]. by eapply parse_line_bad_end.
  - exists (column 3 line).
    split; [by left|]. split; [done|]. by apply parse_line_bad_start.
Qed.

(** C9.  Processing a feature line with 9 columns whose start or end
    column is not an integer raises the exception of [int] on that column.
    A file with such a line never parses: [parse_gff2] raises, with that
    very exception when the lines before it are processed without one;
    [main] does not catch it: the batch ends there and nothing is written
    for the file. *)
Theorem bad_coordinate_raises :
  (forall st line,
     bad_coordinate_line line ->
     exists field,
       (field = column 3 line \/ field = column 4 line)
       /\ py_int field = None
       /\ parse_line st line = Raise (ValueError_invalid_literal field))
  /\ (forall (fsys fsys1 : filesystem) before fname rest text pre line post,
        convert_files fsys before = (fsys1, Ok tt) ->
        fsys1 !! path_join INPUT_DIR fname = Some text ->
        readlines text = pre ++ line :: post ->
        bad_coordinate_line line ->
        exists e,
          parse_gff2 fsys1 (path_join INPUT_DIR fname) = Raise e
          /\ (Forall well_formed (List.filter feature_line pre) ->
              exists field,
                (field = column 3 line \/ field = column 4 line)
                /\ e = ValueError_invalid_literal field)
          /\ convert_file fsys1 fname = (fsys1, Raise e)
          /\ convert_files fsys (before ++ fname :: rest) = (fsys1, Raise e)
          /\ forall listing,
               List.filter is_input_file listing = before ++ fname :: rest ->
               main listing fsys = (fsys1, Raise e)).
Proof.
  split; [exact parse_line_bad_coordinate|].
  intros fsys fsys1 before fname rest text pre line post
    Hbefore Hfile Hlines Hbad.
  destruct (file_with_raising_line _ _ _ _ _ _ Hfile Hlines)
    as (e & Hparse & Hreach).
  { intros st. destruct (parse_line_bad_coordinate st _ Hbad)
      as (field & _ & _ & ->). by eexists. }
  exists e. split; [done|]. split; [|by apply abort_propagates].
  intros Hpre. destruct (parse_loop_total pre pstate0 Hpre) as [st1 Hst1].
  specialize (Hreach _ Hst1).
  destruct (parse_line_bad_coordinate st1 _ Hbad) as (field & Hf & _ & Hl).
  exists field. split; [done|]. congruence.
Qed.

Lemma bad_coordinate_raises_witness :
  exists e,
    parse_gff2 {[path_join INPUT_DIR (str "bad.gff") := bad_start_text]}
      (path_join INPUT_DIR (str "bad.gff")) = Raise e
    /\ e = ValueError_invalid_literal (str "1e3")
    /\ main [str "bad.gff"]
         {[path_join INPUT_DIR (str "bad.gff") := bad_start_text]}
       = ({[path_join INPUT_DIR (str "bad.gff") := bad_start_text]}, Raise e).
Proof.
  destruct (proj2 bad_coordinate_raises
              {[path_join INPUT_DIR (str "bad.gff") := bad_start_text]}
              {[path_join INPUT_DIR (str "bad.gff") := bad_start_text]}
              [] (str "bad.gff") [] bad_start_text
              [tsv_line [str "chr1"; str "GEP"; str "CDS"; str "100";
                         str "200"; str "."; str "+"; str "0";
                         str "gene_id " ++ quoted "G1"]]
              (tsv_line [str "chr1"; str "GEP"; str "exon"; str "1e3";
                         str "200"; str "."; str "+"; str ".";
                         str "gene_id " ++ quoted "G1"])
              [])
    as (e & Hparse & Hkind & _ & _ & Hmain).
  - done.
  - apply lookup_singleton_eq.
  - by vm_compute.
  - split; [by vm_compute|]. split; [by vm_compute|]. left. by vm_compute.
  - exists e. split; [exact Hparse|]. split; [|apply Hmain; by vm_compute].
    destruct Hkind as (field & [->| ->] & ->).
    + vm_compute. repeat constructor; eexists; reflexivity.
    + by vm_compute.
    + exfalso. unfold parse_gff2 in Hparse.
      rewrite lookup_singleton_eq in Hparse. vm_compute in Hparse.
      discriminate.
Defined.

(** ** C10: more than 9 columns *)

(** C10.  A line with 10 or more tab-separated columns is not passed
    over: unless it is a track or comment line, unpacking its columns
    raises, [parse_gff2] raises on the file that holds it, and the batch
    ends there.  Only lines with fewer than 9 columns are passed over
    without an exception. *)
Theorem too_many_columns_raise :
  (exists line,
     (10 <= length (columns line))%nat
     /\ forall (fsys : filesystem) path,
          fsys !! path = Some line ->
          parse_gff2 fsys path = Raise ValueError_too_many_values)
  /\ (forall st line,
        is_comment line = false -> (10 <= length (columns line))%nat ->
        parse_line st line = Raise ValueError_too_many_values)
  /\ (forall st line,
        (length (columns line) < 9)%nat -> parse_line st line = Ok st)
  /\ (forall (fsys fsys1 : filesystem) before fname rest text pre line post,
        convert_files fsys before = (fsys1, Ok tt) ->
        fsys1 !! path_join INPUT_DIR fname = Some text ->
        readlines text = pre ++ line :: post ->
        is_comment line = false -> (10 <= length (columns line))%nat ->
        exists e,
          parse_gff2 fsys1 (path_join INPUT_DIR fname) = Raise e
          /\ (Forall well_formed (List.filter feature_line pre) ->
              e = ValueError_too_many_values)
          /\ convert_file fsys1 fname = (fsys1, Raise e)
          /\ convert_files fsys (before ++ fname :: rest)
             = (fsys1, Raise e)).
Proof.
  split; [|split; [exact parse_line_too_many|split]].
  - exists ten_column_line. split; [vm_compute; lia|].
    intros fsys path Hfile. unfold parse_gff2. rewrite Hfile. by vm_compute.
  - intros st line Hlen. apply parse_line_skipped. rewrite skipped_spec.
    apply orb_true_iff. right. by apply Nat.ltb_lt.
  - intros fsys fsys1 before fname rest text pre line post
      Hbefore Hfile Hlines Hc Hlen.
    destruct (file_with_raising_line _ _ _ _ _ _ Hfile Hlines)
      as (e & Hparse & Hreach).
    { intros st. eexists. by apply parse_line_too_many. }
    exists e. split; [done|]. split.
    + intros Hpre.
      destruct (parse_loop_total pre pstate0 Hpre) as [st1 Hst1].
      specialize (Hreach _ Hst1).
      rewrite parse_line_too_many in Hreach by done. congruence.
    + destruct (abort_propagates _ _ _ _ rest _ Hbefore Hparse)
        as (? & ? & _). done.
Qed.

Lemma too_many_columns_raise_witness :
  parse_line pstate0 ten_column_line = Raise ValueError_too_many_values
  /\ parse_line pstate0 (tsv_line [str "chr1"; str "GEP"]) = Ok pstate0.
Proof.
  destruct too_many_columns_raise as (_ & H1 & H2 & _). split.
  - apply H1; [by vm_compute|vm_compute; lia].
  - apply H2. vm_compute. lia.
Defined.

(** ** write_gff3: the columns of the lines written *)

Lemma split_app_tab a rest :
  ~ In tab a -> split tab (a ++ [tab] ++ rest) = a :: split tab rest.
Proof.
  induction a as [|c a IH]; intros Hno; [done|].
  simpl in *. destruct (Ascii.eqb_spec c tab) as [->|Hc]; [tauto|].
  rewrite IH by tauto. done.
Qed.

Lemma split_no_sep s : ~ In tab s -> split tab s = [s].
Proof.
  induction s as [|c s IH]; intros Hno; [done|].
  simpl in *. destruct (Ascii.eqb_spec c tab) as [->|Hc]; [tauto|].
  rewrite IH by tauto. done.
Qed.

Lemma split_fields_no_tab s : Forall (fun f => ~ In tab f) (split tab s).
Proof.
  induction s as [|c s IH]; simpl.
  { constructor; [intros []|constructor]. }
  destruct (Ascii.eqb_spec c tab) as [->|Hc].
  { constructor; [intros []|done]. }
  destruct (split tab s) as [|f fs].
  - constructor; [|constructor]. intros [|[]]. congruence.
  - inversion IH; subst. constructor; [|done]. intros [|]; [congruence|tauto].
Qed.

Lemma uint_digits_no_tab d :
  ~ In tab (list_ascii_of_string (NilEmpty.string_of_uint d)).
Proof.
  induction d; simpl; try tauto; intros [H|H]; solve [discriminate H|tauto].
Qed.

Lemma str_of_int_no_tab n : ~ In tab (str_of_int n).
Proof.
  unfold str_of_int, NilZero.string_of_int, NilZero.string_of_uint.
  destruct (Z.to_int n) as [d|d]; simpl.
  - destruct d; try apply uint_digits_no_tab. by intros [|[]].
  - intros [|H]; [done|]. revert H.
    destruct d; try apply uint_digits_no_tab. by intros [|[]].
Qed.

Lemma child_type_no_tab t : is_child_type t = true -> ~ In tab t.
Proof.
  unfold is_child_type, str_eqb. intros H.
  apply orb_true_iff in H as [H|H]; apply bool_decide_eq_true in H;
    subst; vm_compute; intuition discriminate.
Qed.

Lemma is_child_type_spec t :
  is_child_type t = true <-> t = str "CDS" \/ t = str "exon".
Proof.
  unfold is_child_type, str_eqb.
  rewrite orb_true_iff, !bool_decide_eq_true. done.
Qed.

(** The loop writes one line for each feature that passes its test, in
    order. *)
Lemma child_lines_filter base seqid fs :
  child_lines base seqid fs
  = map (child_line base seqid)
      (List.filter (fun f => is_child_type (ftype f)) fs).
Proof.
  induction fs as [|f fs IH]; [done|]. simpl.
  destruct (is_child_type (ftype f)); simpl; by rewrite IH.
Qed.

Ltac no_tab :=
  first [ assumption
        | apply str_of_int_no_tab
        | by apply child_type_no_tab
        | vm_compute; intuition discriminate ].

Lemma child_line_fields base seqid f :
  ~ In tab (fmt seqid) -> ~ In tab (ftype f) -> ~ In tab (fscore f) ->
  ~ In tab (fstrand f) -> ~ In tab (fphase f) ->
  fields (child_line base seqid f)
  = [fmt seqid; str "GEP"; ftype f; str_of_int (fstart f);
     str_of_int (fend f); fscore f; fstrand f; fphase f]
    ++ split tab (str "Parent=" ++ mrna_id base ++ str ";" ++ fattrs f
                  ++ [newline]).
Proof.
  intros. unfold fields, child_line.
  repeat (rewrite split_app_tab by no_tab). reflexivity.
Qed.

Lemma column_no_tab i line : ~ In tab (column i line).
Proof.
  unfold column, columns.
  pose proof (split_fields_no_tab (rstrip_char newline line)) as Hall.
  revert i. induction Hall as [|f fs Hf _ IH]; intros [|i]; simpl; auto.
Qed.

Lemma parse_loop_tab_free lines : forall st st',
  parse_loop st lines = Ok st' ->
  ~ In tab (fmt (seqid st)) -> ~ In tab (fmt (strand st)) ->
  Forall tab_free_feature (features st) ->
  ~ In tab (fmt (seqid st')) /\ ~ In tab (fmt (strand st'))
  /\ Forall tab_free_feature (features st').
Proof.
  induction lines as [|l lines IH]; intros st st' H Hs Hd Hfs; simpl in H.
  - by inversion H; subst.
  - destruct (parse_line_cases st l)
      as [[Hsk Hl]|[[Hf [e Hl]]|(Hf & Hwf & s & e & _ & _ & Hl)]];
      rewrite Hl in H; simpl in H; [by eapply IH|discriminate|].
    eapply IH; [exact H|..]; simpl; try apply column_no_tab.
    apply Forall_app. split; [done|]. constructor; [|constructor].
    repeat split; simpl; apply column_no_tab.
Qed.

Lemma parse_gff2_tab_free (fsys : filesystem) path r :
  parse_gff2 fsys path = Ok r ->
  ~ In tab (fmt (p_seqid r)) /\ ~ In tab (fmt (p_strand r))
  /\ Forall tab_free_feature (p_features r).
Proof.
  unfold parse_gff2, parse_lines.
  destruct (fsys !! path) as [text|]; [|done].
  destruct (parse_loop pstate0 (readlines text)) as [st|] eqn:Hloop; [|done].
  simpl. destruct (py_min (starts st)); [|done]. simpl.
  destruct (py_max (ends st)); [|done]. simpl.
  intros [= <-]. simpl.
  eapply parse_loop_tab_free; [exact Hloop|..]; simpl;
    try constructor; vm_compute; intuition discriminate.
Qed.

(** ** C2: the types of the child lines *)

(** C2.  The strings written are the two directive lines, the mRNA line,
    the child lines and the closing line, in this order.  The child
    lines are the lines of the features whose type is [CDS] or [exon], one
    each, in order: a feature of another type gives no line.  Every child
    line is the line of such a feature, and its third column, read back by
    splitting on the tab, is that type (the sequence id holding no tab, as
    every parsed one does). *)
Theorem child_lines_cds_exon_only
    (fsys : filesystem) (path base : pystr) (seqid : option pystr)
    (start end_ : Z) (strand : option pystr) (fs : list feature) :
  (exists l1 l2,
     gff3_lines base seqid start end_ strand fs
     = [l1; l2; mrna_line base seqid start end_ strand]
       ++ child_lines base seqid fs ++ [str "###" ++ [newline]]
     /\ write_gff3 fsys path base seqid start end_ strand fs !! path
        = Some (concat (gff3_lines base seqid start end_ strand fs)))
  /\ child_lines base seqid fs
     = map (child_line base seqid)
         (List.filter (fun f => is_child_type (ftype f)) fs)
  /\ (forall f, In f (List.filter (fun f => is_child_type (ftype f)) fs)
                <-> In f fs /\ (ftype f = str "CDS" \/ ftype f = str "exon"))
  /\ (forall line, In line (child_lines base seqid fs) ->
        exists f,
          In f fs /\ line = child_line base seqid f
          /\ (ftype f = str "CDS" \/ ftype f = str "exon")
          /\ (~ In tab (fmt seqid) -> field 2 line = ftype f)).
Proof.
  split; [|split; [apply child_lines_filter|split]].
  - eexists _, _. split; [reflexivity|]. apply lookup_insert_eq.
  - intros f. rewrite filter_In, is_child_type_spec. done.
  - intros line. rewrite child_lines_filter, in_map_iff.
    intros (f & <- & Hin). apply filter_In in Hin as [Hin Ht].
    exists f. split; [done|]. split; [done|].
    split; [by apply is_child_type_spec|]. intros Hseq.
    unfold field, fields, child_line.
    do 2 (rewrite split_app_tab by no_tab).
    rewrite split_app_tab by (by apply child_type_no_tab). done.
Qed.

Lemma child_lines_cds_exon_only_witness :
  length (child_lines (str "gene1") (Some (str "chr1")) mixed_features)
  = 2%nat
  /\ forall line,
       In line (child_lines (str "gene1") (Some (str "chr1"))
                  mixed_features) ->
       field 2 line = str "CDS" \/ field 2 line = str "exon".
Proof.
  split; [by vm_compute|]. intros line Hline.
  destruct (child_lines_cds_exon_only ∅ (str "out.gff3") (str "gene1")
              (Some (str "chr1")) 100 200 (Some (str "+")) mixed_features)
    as (_ & _ & _ & H).
  destruct (H line Hline) as (f & _ & _ & Ht & Hfield).
  rewrite Hfield; [exact Ht|]. vm_compute. intuition discriminate.
Defined.

(** ** The scenario of the spec, end to end *)

Example main_gene1 :
  main [str "gene1.gff"] {[gene1_path := gene1_text]}
  = (<[path_join OUTPUT_DIR (str "gene1.gff3") := gene1_gff3_text]>
       {[gene1_path := gene1_text]},
     Ok tt).
Proof.
  unfold main. change (List.filter is_input_file [str "gene1.gff"])
    with [str "gene1.gff"].
  unfold convert_files, convert_file.
  change (path_join INPUT_DIR (str "gene1.gff")) with gene1_path.
  rewrite parse_gene1. unfold write_gff3. f_equal.
Qed.

(** * Further properties *)

(** ** parse_gff2: what is kept of the feature lines *)

Lemma parse_loop_records lines : forall st st',
  parse_loop st lines = Ok st' ->
  exists fs,
    features st' = features st ++ fs
    /\ Forall2 (fun l f => feature_of_line l = Some f)
         (List.filter feature_line lines) fs
    /\ (seqid st', strand st')
       = match last (List.filter feature_line lines) with
         | Some l => (Some (column 0 l), Some (column 6 l))
         | None => (seqid st, strand st)
         end.
Proof.
  induction lines as [|l lines IH]; intros st st' H; simpl in H.
  - inversion H; subst. exists []. by rewrite app_nil_r.
  - destruct (parse_line_cases st l)
      as [[Hsk Hl]|[[Hf [e Hl]]|(Hf & Hwf & s & e & Hs & He & Hl)]];
      rewrite Hl in H; simpl in H; [|discriminate|].
    + cbn [List.filter].
      assert (feature_line l = false) as ->
        by (unfold feature_line; by rewrite Hsk).
      by apply IH.
    + apply IH in H as (fs & H1 & H2 & H3).
      exists (MkFeature (column 2 l) s e (column 5 l) (column 6 l)
                (column 7 l) (convert_attributes (column 8 l)) :: fs).
      cbn [List.filter]. rewrite Hf. simpl in H1, H3.
      rewrite H1, <- app_assoc.
      split; [done|]. split.
      * constructor; [|done]. unfold feature_of_line. rewrite Hs, He. done.
      * rewrite H3.
        destruct (List.filter feature_line lines) as [|l' ls]; [done|].
        rewrite last_cons_cons.
        destruct (last (l' :: ls)) eqn:E; [done|]. by apply last_None in E.
Qed.

(** X1.  The sequence id and the strand returned by [parse_gff2] are
    those of the last feature line of the file (its first and seventh
    columns): every feature line overwrites the ones before it. *)
Theorem parse_gff2_last_line_wins
    (fsys : filesystem) (path text : pystr) (r : parsed) :
  fsys !! path = Some text ->
  parse_gff2 fsys path = Ok r ->
  exists l,
    last (List.filter feature_line (readlines text)) = Some l
    /\ p_seqid r = Some (column 0 l)
    /\ p_strand r = Some (column 6 l).
Proof.
  unfold parse_gff2, parse_lines. intros -> H.
  destruct (parse_loop pstate0 (readlines text)) as [st|] eqn:Hloop; [|done].
  simpl in H. destruct (py_min (starts st)) as [lo|] eqn:Hlo; [|done].
  simpl in H. destruct (py_max (ends st)) as [hi|]; [|done].
  simpl in H. inversion H; subst; clear H. simpl.
  pose proof (parse_loop_collects _ _ _ Hloop) as (cs & Hc & H1 & _).
  apply parse_loop_records in Hloop as (fs & _ & _ & Hlast).
  destruct (last (List.filter feature_line (readlines text))) as [l|] eqn:Hl.
  - exists l. inversion Hlast. done.
  - apply last_None in Hl. rewrite Hl in Hc. inversion Hc; subst.
    simpl in H1. by rewrite H1 in Hlo.
Qed.

Lemma parse_gff2_last_line_wins_witness :
  exists l,
    last (List.filter feature_line (readlines gene1_commented_text)) = Some l
    /\ Some (str "chr1") = Some (column 0 l)
    /\ Some (str "+") = Some (column 6 l).
Proof.
  apply (parse_gff2_last_line_wins
           {[str "b.gff" := gene1_commented_text]} (str "b.gff")
           gene1_commented_text
           (MkParsed (Some (str "chr1")) 100 200 (Some (str "+"))
              [MkFeature (str "CDS") 100 200 (str ".") (str "+") (str "0")
                 (str "gene_id=G1");
               MkFeature (str "exon") 100 200 (str ".") (str "+") (str ".")
                 (str "gene_id=G1")])).
  - apply lookup_singleton_eq.
  - unfold parse_gff2. rewrite lookup_singleton_eq. by vm_compute.
Defined.

(** X2.  The feature list returned by [parse_gff2] has one record for
    each feature line of the file, in the order of the file; each record
    is built from the columns of its own line (type, start, end, score,
    strand, phase) with its attributes translated. *)
Theorem parse_gff2_features_in_order
    (fsys : filesystem) (path text : pystr) (r : parsed) :
  fsys !! path = Some text ->
  parse_gff2 fsys path = Ok r ->
  Forall2 (fun l f => feature_of_line l = Some f)
    (List.filter feature_line (readlines text)) (p_features r)
  /\ length (p_features r)
     = length (List.filter feature_line (readlines text)).
Proof.
  unfold parse_gff2, parse_lines. intros -> H.
  destruct (parse_loop pstate0 (readlines text)) as [st|] eqn:Hloop; [|done].
  simpl in H. destruct (py_min (starts st)) as [lo|]; [|done].
  simpl in H. destruct (py_max (ends st)) as [hi|]; [|done].
  simpl in H. inversion H; subst; clear H. simpl.
  apply parse_loop_records in Hloop as (fs & Hfs & Hall & _).
  simpl in Hfs. subst fs. split; [done|].
  symmetry. by eapply Forall2_length.
Qed.

Lemma parse_gff2_features_in_order_witness :
  Forall2 (fun l f => feature_of_line l = Some f)
    (List.filter feature_line (readlines gene1_text))
    [MkFeature (str "CDS") 100 200 (str ".") (str "+") (str "0")
       (str "gene_id=G1");
     MkFeature (str "exon") 100 200 (str ".") (str "+") (str ".")
       (str "gene_id=G1")].
Proof.
  apply (parse_gff2_features_in_order {[gene1_path := gene1_text]}
           gene1_path gene1_text
           (MkParsed (Some (str "chr1")) 100 200 (Some (str "+"))
              [MkFeature (str "CDS") 100 200 (str ".") (str "+") (str "0")
                 (str "gene_id=G1");
               MkFeature (str "exon") 100 200 (str ".") (str "+") (str ".")
                 (str "gene_id=G1")])).
  - apply lookup_singleton_eq.
  - unfold parse_gff2. rewrite lookup_singleton_eq. by vm_compute.
Defined.

(** ** main: the selection of the input files *)

Lemma startswith_spec s p :
  startswith s p = true <-> exists rest, s = p ++ rest.
Proof.
  revert s. induction p as [|c p IH]; intros s.
  - split; [intros _; by exists s|intros _; by destruct s].
  - destruct s as [|d s]; simpl.
    + split; [done|]. intros [rest Hrest]. discriminate Hrest.
    + rewrite andb_true_iff, IH. split.
      * intros [Hc [rest ->]]. apply Ascii.eqb_eq in Hc as ->. by exists rest.
      * intros [rest [= -> ->]]. split; [apply Ascii.eqb_refl|by exists rest].
Qed.

Lemma endswith_spec s p :
  endswith s p = true <-> exists pre, s = pre ++ p.
Proof.
  unfold endswith. rewrite startswith_spec. split.
  - intros [rest H]. exists (rev rest).
    rewrite <- (rev_involutive s), H, rev_app_distr.
    by rewrite rev_involutive.
  - intros [pre ->]. exists (rev pre). by rewrite rev_app_distr.
Qed.

Lemma endswith_gff_not_gff3 s :
  endswith s (str ".gff") = true -> endswith s OUTPUT_EXT = false.
Proof.
  unfold endswith, OUTPUT_EXT.
  change (rev (str ".gff")) with (str "ffg.").
  change (rev (str ".gff3")) with (str "3ffg.").
  destruct (rev s) as [|c t]; [done|].
  cbn [str list_ascii_of_string startswith].
  destruct (Ascii.eqb_spec "f" c) as [<-|]; [|done].
  intros _. reflexivity.
Qed.

Lemma is_input_file_spec f :
  is_input_file f = endswith (lower f) (str ".gff").
Proof.
  unfold is_input_file.
  destruct (endswith (lower f) (str ".gff")) eqn:H; [|done].
  by rewrite endswith_gff_not_gff3.
Qed.

Lemma is_input_file_output_ext base :
  is_input_file (base ++ OUTPUT_EXT) = false.
Proof.
  unfold is_input_file.
  assert (endswith (lower (base ++ OUTPUT_EXT)) OUTPUT_EXT = true) as ->.
  { apply endswith_spec. exists (lower base).
    unfold lower. by rewrite map_app. }
  apply andb_false_r.
Qed.

(** X3.  A file name is selected when, in lower case, it ends in [.gff];
    the second test of the selection never rejects such a name.  A name
    that ends in the output extension is never selected, so the files
    that [main] writes are not taken as input by a later run. *)
Theorem output_files_not_selected :
  (forall f, is_input_file f = endswith (lower f) (str ".gff"))
  /\ (forall base, is_input_file (base ++ OUTPUT_EXT) = false)
  /\ (forall f, endswith (lower f) OUTPUT_EXT = true ->
                is_input_file f = false).
Proof.
  split; [exact is_input_file_spec|].
  split; [exact is_input_file_output_ext|].
  intros f H. unfold is_input_file. rewrite H. apply andb_false_r.
Qed.

(** ** main: the name of the output file *)

Lemma rfind_from_notin c s : forall i found,
  ~ In c s -> rfind_from c i s found = found.
Proof.
  induction s as [|d s IH]; intros i found Hno; [done|]. simpl in *.
  destruct (Ascii.eqb_spec d c) as [->|]; [tauto|]. apply IH. tauto.
Qed.

Lemma rfind_from_last c pre post : forall i found,
  ~ In c post ->
  rfind_from c i (pre ++ c :: post) found = i + Z.of_nat (length pre).
Proof.
  induction pre as [|d pre IH]; intros i found Hno; simpl.
  - rewrite Ascii.eqb_refl, rfind_from_notin by done. lia.
  - rewrite IH by done. lia.
Qed.

Lemma splitext_name stem ext :
  ~ In "/"%char (stem ++ "."%char :: ext) -> ~ In "."%char ext ->
  splitext (stem ++ "."%char :: ext)
  = if existsb (fun c => negb (Ascii.eqb c "."%char)) stem
    then (stem, "."%char :: ext)
    else (stem ++ "."%char :: ext, []).
Proof.
  intros Hsep Hdot. unfold splitext, rfind.
  rewrite (rfind_from_notin "/"%char) by done.
  rewrite rfind_from_last by done.
  replace (-1 <? 0 + Z.of_nat (length stem)) with true
    by (symmetry; apply Z.ltb_lt; lia).
  replace (Z.to_nat (0 + Z.of_nat (length stem) - (-1 + 1)))
    with (length stem) by lia.
  replace (Z.to_nat (-1 + 1)) with 0%nat by lia.
  replace (Z.to_nat (0 + Z.of_nat (length stem))) with (length stem) by lia.
  rewrite drop_0, take_app_length, drop_app_length. done.
Qed.

Lemma lower_char_dot c : lower_char c = "."%char -> c = "."%char.
Proof.
  destruct c as [[] [] [] [] [] [] [] []]; vm_compute; congruence.
Qed.

Lemma lower_gff_shape ext :
  lower ext = str ".gff" ->
  exists e, ext = "."%char :: e /\ ~ In "."%char e /\ length e = 3%nat.
Proof.
  destruct ext as [|a [|b [|c [|d [|? ?]]]]]; try discriminate.
  intros [= Ha Hb Hc Hd]. apply lower_char_dot in Ha as ->.
  exists [b; c; d]. split; [done|]. split; [|done].
  intros [->|[->|[->|[]]]]; discriminate.
Qed.

(** X4.  The output file of a selected name (a name of the directory
    listing, which holds no separator) is the name with its last four
    characters, [.gff] in upper or lower case, replaced by [.gff3].  When
    nothing but dots comes before these four characters, as in the name
    [.gff], they are kept and [.gff3] is added after them. *)
Theorem output_name_of_selected (fname : pystr) :
  is_input_file fname = true -> ~ In "/"%char fname ->
  fst (splitext fname) ++ OUTPUT_EXT
  = (if existsb (fun c => negb (Ascii.eqb c "."%char))
          (take (length fname - 4) fname)
     then take (length fname - 4) fname
     else fname) ++ str ".gff3".
Proof.
  intros Hsel Hsep. unfold is_input_file in Hsel.
  apply andb_true_iff in Hsel as [Hsel _].
  apply endswith_spec in Hsel as [pre Hpre].
  assert (Hlen : (4 <= length fname)%nat).
  { apply (f_equal length) in Hpre. unfold lower in Hpre.
    rewrite length_map, length_app in Hpre. simpl in Hpre. lia. }
  rewrite <- (take_drop (length fname - 4) fname) in Hpre.
  unfold lower in Hpre. rewrite map_app in Hpre.
  apply app_inj_2 in Hpre as [_ Hext];
    [|rewrite length_map, length_drop; simpl; lia].
  apply lower_gff_shape in Hext as (e & He & Hdot & _).
  assert (Hf : fname = take (length fname - 4) fname ++ "."%char :: e)
    by (by rewrite <- He, take_drop).
  rewrite Hf at 1. rewrite Hf in Hsep. rewrite splitext_name by done.
  destruct (existsb _ (take (length fname - 4) fname)); simpl; [done|].
  by rewrite <- Hf.
Qed.

Lemma output_name_of_selected_witness :
  fst (splitext (str "Gene.1.GFF")) ++ OUTPUT_EXT = str "Gene.1.gff3"
  /\ fst (splitext (str "..gff")) ++ OUTPUT_EXT = str "..gff.gff3".
Proof.
  split.
  - apply (output_name_of_selected (str "Gene.1.GFF")); [by vm_compute|].
    vm_compute. intuition discriminate.
  - apply (output_name_of_selected (str "..gff")); [by vm_compute|].
    vm_compute. intuition discriminate.
Defined.

(** ** main: input files are read, never written *)

Lemma path_join_suffix a b : exists x, path_join a b = x ++ b.
Proof.
  unfold path_join. destruct (startswith b (str "/")); [by exists []|].
  destruct (match a with [] => true | _ => endswith a (str "/") end).
  - by exists a.
  - exists (a ++ str "/"). by rewrite <- app_assoc.
Qed.

Lemma is_input_file_app x f :
  is_input_file f = true -> is_input_file (x ++ f) = true.
Proof.
  rewrite !is_input_file_spec, !endswith_spec.
  intros [pre Hpre]. exists (lower x ++ pre).
  unfold lower in *. by rewrite map_app, Hpre, app_assoc.
Qed.

Lemma in_path_is_input f :
  is_input_file f = true -> is_input_file (in_path f) = true.
Proof.
  intros H. unfold in_path.
  destruct (path_join_suffix INPUT_DIR f) as [x ->].
  by apply is_input_file_app.
Qed.

Lemma out_path_not_input f : is_input_file (out_path f) = false.
Proof.
  unfold out_path.
  destruct (path_join_suffix OUTPUT_DIR (fst (splitext f) ++ OUTPUT_EXT))
    as [x ->].
  rewrite app_assoc. apply is_input_file_output_ext.
Qed.

Lemma convert_file_unfold (fsys : filesystem) f :
  convert_file fsys f
  = match parse_gff2 fsys (in_path f) with
    | Ok p => (<[out_path f := gff3_text (fst (splitext f)) p]> fsys, Ok tt)
    | Raise e => (fsys, Raise e)
    end.
Proof. reflexivity. Qed.

Lemma convert_file_keeps_inputs (fsys : filesystem) f p :
  is_input_file p = true -> (convert_file fsys f).1 !! p = fsys !! p.
Proof.
  intros Hp. rewrite convert_file_unfold.
  destruct (parse_gff2 fsys (in_path f)); [|done]. simpl.
  apply lookup_insert_ne. intros Heq.
  by rewrite <- Heq, out_path_not_input in Hp.
Qed.

Lemma convert_files_keep_inputs files : forall (fsys : filesystem) p,
  is_input_file p = true -> (convert_files fsys files).1 !! p = fsys !! p.
Proof.
  induction files as [|f files IH]; intros fsys p Hp; [done|]. simpl.
  pose proof (convert_file_keeps_inputs fsys f p Hp) as Hf.
  destruct (convert_file fsys f) as [fsys' [[]|e]]; simpl in *; [|done].
  by rewrite IH.
Qed.

(** X5.  [main] never writes to a path that would be selected as input (a
    path that ends in [.gff], in upper or lower case): whatever the
    listing and however the batch ends, every such file has afterwards
    the text it had before.  In particular the input files of the batch
    are unchanged. *)
Theorem main_keeps_input_files
    (listing : list pystr) (fsys : filesystem) :
  (forall p, is_input_file p = true ->
             (main listing fsys).1 !! p = fsys !! p)
  /\ (forall f, is_input_file f = true ->
                (main listing fsys).1 !! in_path f = fsys !! in_path f).
Proof.
  assert (H : forall p, is_input_file p = true ->
                        (main listing fsys).1 !! p = fsys !! p).
  { intros p Hp. unfold main.
    destruct (List.filter is_input_file listing) as [|f files]; [done|].
    by apply convert_files_keep_inputs. }
  split; [exact H|]. intros f Hf. by apply H, in_path_is_input.
Qed.

Lemma main_keeps_input_files_witness :
  (main [str "gene1.gff"] {[gene1_path := gene1_text]}).1 !! gene1_path
  = ({[gene1_path := gene1_text]} : filesystem) !! gene1_path.
Proof.
  apply (proj2 (main_keeps_input_files [str "gene1.gff"]
                  {[gene1_path := gene1_text]}) (str "gene1.gff")).
  by vm_compute.
Defined.

(** ** main: a second run changes nothing *)

Lemma apply_writes_snoc (fsys : filesystem) (ws : list (pystr * pystr)) k v :
  apply_writes fsys (ws ++ [(k, v)]) = <[k := v]> (apply_writes fsys ws).
Proof. unfold apply_writes. by rewrite foldl_app. Qed.

Lemma apply_writes_union (ws : list (pystr * pystr)) :
  forall fsys : filesystem,
  apply_writes fsys ws = apply_writes ∅ ws ∪ fsys.
Proof.
  induction ws as [|[k v] ws IH] using rev_ind; intros fsys.
  - unfold apply_writes. simpl. by rewrite (left_id ∅ (∪)).
  - rewrite !apply_writes_snoc, IH. by rewrite insert_union_l.
Qed.

Lemma apply_writes_twice (ws : list (pystr * pystr)) (fsys : filesystem) :
  apply_writes (apply_writes fsys ws) ws = apply_writes fsys ws.
Proof.
  rewrite (apply_writes_union ws (apply_writes fsys ws)).
  rewrite (apply_writes_union ws fsys).
  by rewrite (assoc (∪)), (idemp (∪)).
Qed.

(** A batch over a file system that holds the input files of [fsys0]
    writes what the batch over [fsys0] writes, and ends as it ends. *)
Lemma convert_files_writes (fsys0 : filesystem) files :
  forall fsys : filesystem,
  (forall p, is_input_file p = true -> fsys !! p = fsys0 !! p) ->
  Forall (fun f => is_input_file f = true) files ->
  convert_files fsys files
  = (apply_writes fsys (batch_writes fsys0 files),
     batch_outcome fsys0 files).
Proof.
  induction files as [|f files IH]; intros fsys Hagree Hall; [done|].
  inversion Hall as [|? ? Hf Hfiles]; subst.
  cbn [convert_files batch_writes batch_outcome].
  rewrite convert_file_unfold.
  assert (Hparse : parse_gff2 fsys (in_path f)
                   = parse_gff2 fsys0 (in_path f)).
  { unfold parse_gff2. by rewrite Hagree by by apply in_path_is_input. }
  rewrite Hparse. destruct (parse_gff2 fsys0 (in_path f)) as [p|e]; [|done].
  rewrite IH; [done| |done].
  intros q Hq. rewrite lookup_insert_ne; [by apply Hagree|].
  intros Heq. by rewrite <- Heq, out_path_not_input in Hq.
Qed.

Lemma main_twice (listing : list pystr) (fsys : filesystem) :
  main listing (main listing fsys).1 = main listing fsys.
Proof.
  unfold main.
  assert (Hall : Forall (fun f => is_input_file f = true)
                   (List.filter is_input_file listing)).
  { apply Forall_forall. intros f Hf. apply list_elem_of_In in Hf.
    by apply filter_In in Hf as [_ Hf]. }
  destruct (List.filter is_input_file listing) as [|f files] eqn:Hfiles;
    [done|].
  rewrite (convert_files_writes fsys (f :: files) fsys) by done.
  cbn [fst].
  rewrite (convert_files_writes fsys (f :: files)
             (apply_writes fsys (batch_writes fsys (f :: files)))).
  - by rewrite apply_writes_twice.
  - intros p Hp.
    pose proof (convert_files_keep_inputs (f :: files) fsys p Hp) as Hk.
    by rewrite (convert_files_writes fsys (f :: files) fsys) in Hk.
  - done.
Qed.

(** X6.  Running [main] again on the file system it left changes nothing:
    with a listing that selects the same names in the same order (the
    first listing with the names of the output files added, for
    instance), the second run leaves the same file system and ends the
    same way (normally, or with the same exception). *)
Theorem main_idempotent (listing listing' : list pystr) (fsys : filesystem) :
  List.filter is_input_file listing' = List.filter is_input_file listing ->
  main listing' (main listing fsys).1 = main listing fsys.
Proof.
  intros Hsame. rewrite <- (main_twice listing fsys) at 2.
  unfold main at 1 3. by rewrite Hsame.
Qed.

Lemma main_idempotent_witness :
  main [str "gene1.gff3"; str "gene1.gff"]
    (main [str "gene1.gff"] {[gene1_path := gene1_text]}).1
  = main [str "gene1.gff"] {[gene1_path := gene1_text]}.
Proof.
  apply (main_idempotent [str "gene1.gff"]
           [str "gene1.gff3"; str "gene1.gff"]).
  by vm_compute.
Defined.

(** ** main: how the batch ends *)

Lemma batch_outcome_ok (fsys : filesystem) files :
  batch_outcome fsys files = Ok tt
  <-> Forall (fun f => exists p, parse_gff2 fsys (in_path f) = Ok p) files.
Proof.
  induction files as [|f files IH]; simpl.
  - split; [constructor|done].
  - destruct (parse_gff2 fsys (in_path f)) as [p|e] eqn:Hp.
    + rewrite IH. split; [intros H; constructor; eauto|].
      by inversion 1.
    + split; [done|]. inversion 1 as [|? ? [p Hp'] _]. congruence.
Qed.

Lemma batch_outcome_first_failure (fsys : filesystem) before f rest e :
  Forall (fun f => exists p, parse_gff2 fsys (in_path f) = Ok p) before ->
  parse_gff2 fsys (in_path f) = Raise e ->
  batch_outcome fsys (before ++ f :: rest) = Raise e.
Proof.
  induction 1 as [|g before [p Hp] _ IH]; intros Hf; simpl.
  - by rewrite Hf.
  - rewrite Hp. by apply IH.
Qed.

Lemma selected_are_inputs listing :
  Forall (fun f => is_input_file f = true)
    (List.filter is_input_file listing).
Proof.
  apply Forall_forall. intros f Hf. apply list_elem_of_In in Hf.
  by apply filter_In in Hf as [_ Hf].
Qed.

Lemma main_batch (listing : list pystr) (fsys : filesystem) :
  main listing fsys
  = (apply_writes fsys
       (batch_writes fsys (List.filter is_input_file listing)),
     batch_outcome fsys (List.filter is_input_file listing)).
Proof.
  unfold main. pose proof (selected_are_inputs listing) as Hall.
  destruct (List.filter is_input_file listing) as [|f files]; [done|].
  by apply convert_files_writes.
Qed.

(** X7.  Whether a selected file converts is decided on the file system
    [main] starts with: the conversions made before it in the batch
    neither break it nor repair it.  [main] ends normally exactly when
    every selected file parses; otherwise it ends with the exception of
    the first selected file, in the order of the listing, whose parse
    raises. *)
Theorem main_outcome (listing : list pystr) (fsys : filesystem) :
  ((main listing fsys).2 = Ok tt
   <-> Forall (fun f => exists p, parse_gff2 fsys (in_path f) = Ok p)
         (List.filter is_input_file listing))
  /\ (forall before f rest e,
        List.filter is_input_file listing = before ++ f :: rest ->
        Forall (fun f => exists p, parse_gff2 fsys (in_path f) = Ok p)
          before ->
        parse_gff2 fsys (in_path f) = Raise e ->
        (main listing fsys).2 = Raise e).
Proof.
  rewrite main_batch. cbn [snd]. split; [apply batch_outcome_ok|].
  intros before f rest e -> Hbefore Hf.
  by apply batch_outcome_first_failure.
Qed.

Lemma main_outcome_witness :
  (main [str "gene1.gff"; str "notes.txt"; str "empty.gff"]
     (<[in_path (str "empty.gff") := comments_only_text]>
        {[gene1_path := gene1_text]})).2
  = Raise ValueError_empty_sequence.
Proof.
  apply (proj2 (main_outcome
                  [str "gene1.gff"; str "notes.txt"; str "empty.gff"]
                  (<[in_path (str "empty.gff") := comments_only_text]>
                     {[gene1_path := gene1_text]}))
           [str "gene1.gff"] (str "empty.gff") []).
  - by vm_compute.
  - constructor; [|constructor]. eexists. unfold parse_gff2.
    change (in_path (str "gene1.gff")) with gene1_path.
    rewrite lookup_insert_ne by (by vm_compute).
    rewrite lookup_singleton_eq. by vm_compute.
  - unfold parse_gff2. rewrite lookup_insert_eq. by vm_compute.
Defined.

(** ** main: two names, one output file *)

Lemma out_path_of_stem stem e :
  lower e = str ".gff" -> ~ In "/"%char stem ->
  existsb (fun c => negb (Ascii.eqb c "."%char)) stem = true ->
  fst (splitext (stem ++ e)) = stem
  /\ out_path (stem ++ e) = path_join OUTPUT_DIR (stem ++ OUTPUT_EXT).
Proof.
  intros He Hsep Hstem.
  destruct (lower_gff_shape e He) as (e' & -> & Hdot & _).
  assert (Hs : fst (splitext (stem ++ "."%char :: e')) = stem).
  { rewrite splitext_name, Hstem; [done| |done].
    rewrite in_app_iff. intros [H|H]; [done|].
    destruct e' as [|b [|c [|d [|? ?]]]]; try discriminate.
    injection He as Hb Hc Hd.
    destruct H as [H|[H|[H|[H|[]]]]]; subst; discriminate. }
  split; [done|]. unfold out_path. by rewrite Hs.
Qed.

(** X8.  Two selected names that differ only in the case of their
    extension ([a.gff] and [a.GFF]) share one output file: when both
    parse, the batch writes it twice and it ends with the conversion of
    the name that comes later in the listing. *)
Theorem same_stem_overwrites
    (fsys : filesystem) (stem e1 e2 : pystr) (p1 p2 : parsed) :
  lower e1 = str ".gff" -> lower e2 = str ".gff" ->
  ~ In "/"%char stem ->
  existsb (fun c => negb (Ascii.eqb c "."%char)) stem = true ->
  parse_gff2 fsys (in_path (stem ++ e1)) = Ok p1 ->
  parse_gff2 fsys (in_path (stem ++ e2)) = Ok p2 ->
  out_path (stem ++ e1) = out_path (stem ++ e2)
  /\ main [stem ++ e1; stem ++ e2] fsys
     = (<[out_path (stem ++ e2) := gff3_text stem p2]> fsys, Ok tt).
Proof.
  intros He1 He2 Hsep Hstem Hp1 Hp2.
  destruct (out_path_of_stem stem e1 He1 Hsep Hstem) as [Hs1 Ho1].
  destruct (out_path_of_stem stem e2 He2 Hsep Hstem) as [Hs2 Ho2].
  split; [congruence|].
  assert (Hsel : forall e, lower e = str ".gff" ->
                           is_input_file (stem ++ e) = true).
  { intros e He. rewrite is_input_file_spec. apply endswith_spec.
    exists (lower stem). unfold lower in *. by rewrite map_app, He. }
  rewrite main_batch. cbn [List.filter]. rewrite !Hsel by done.
  cbn [batch_writes batch_outcome]. rewrite Hp1, Hp2, Hs1, Hs2, Ho1, <- Ho2.
  unfold apply_writes. simpl. by rewrite insert_insert_eq.
Qed.

Lemma same_stem_overwrites_witness :
  main [str "gene1.gff"; str "gene1.GFF"]
    (<[in_path (str "gene1.GFF") := reversed_text]>
       {[gene1_path := gene1_text]})
  = (<[out_path (str "gene1.GFF")
       := gff3_text (str "gene1")
            (MkParsed (Some (str "chr1")) 200 100 (Some (str "-"))
               [MkFeature (str "CDS") 200 100 (str ".") (str "-")
                  (str "0") (str "gene_id=G1")])]>
       (<[in_path (str "gene1.GFF") := reversed_text]>
          {[gene1_path := gene1_text]}),
     Ok tt).
Proof.
  apply (same_stem_overwrites
           (<[in_path (str "gene1.GFF") := reversed_text]>
              {[gene1_path := gene1_text]})
           (str "gene1") (str ".gff") (str ".GFF")
           (MkParsed (Some (str "chr1")) 100 200 (Some (str "+"))
              [MkFeature (str "CDS") 100 200 (str ".") (str "+") (str "0")
                 (str "gene_id=G1");
               MkFeature (str "exon") 100 200 (str ".") (str "+") (str ".")
                 (str "gene_id=G1")])).
  - by vm_compute.
  - by vm_compute.
  - vm_compute. intuition discriminate.
  - by vm_compute.
  - unfold parse_gff2.
    change (in_path (str "gene1" ++ str ".gff")) with gene1_path.
    rewrite lookup_insert_ne by (by vm_compute).
    rewrite lookup_singleton_eq. by vm_compute.
  - unfold parse_gff2.
    change (in_path (str "gene1" ++ str ".GFF"))
      with (in_path (str "gene1.GFF")).
    rewrite lookup_insert_eq. by vm_compute.
Defined.

(** ** convert_attributes: what the matcher finds first *)

Lemma rep_lazy_first {R} c (k : pystr -> option R) x s' : forall pre low,
  forallb (cmatch c) pre = true -> (low <= length pre)%nat ->
  (forall pre1 pre2, pre = pre1 ++ pre2 -> pre2 <> [] ->
                     (low <= length pre1)%nat -> k (pre2 ++ s') = None) ->
  k s' = Some x ->
  rep_lazy c low (pre ++ s') k = Some x.
Proof.
  induction pre as [|a pre IH]; intros low Hall Hlow Hfail Hk.
  - simpl in Hlow. assert (low = 0%nat) as -> by lia.
    destruct s'; simpl; by rewrite Hk.
  - simpl in Hall. apply andb_true_iff in Hall as [Ha Hall].
    assert (Hrec : rep_lazy c (Nat.pred low) (pre ++ s') k = Some x).
    { apply IH; [done|simpl in Hlow; lia| |done].
      intros pre1 pre2 -> Hne Hl. apply (Hfail (a :: pre1) pre2); [done..|].
      simpl. lia. }
    simpl. rewrite Ha, Hrec. destruct low as [|low]; [|done]. simpl.
    assert (Hf : k ((a :: pre) ++ s') = None)
      by (apply (Hfail [] (a :: pre)); [done|done|simpl; lia]).
    simpl in Hf. by rewrite Hf.
Qed.

Lemma rep_greedy_run {R} c (k : pystr -> option R) x s' : forall pre low,
  forallb (cmatch c) pre = true -> (low <= length pre)%nat ->
  match s' with [] => True | b :: _ => cmatch c b = false end ->
  k s' = Some x ->
  rep_greedy c low (pre ++ s') k = Some x.
Proof.
  induction pre as [|a pre IH]; intros low Hall Hlow Hstop Hk.
  - simpl in Hlow. assert (low = 0%nat) as -> by lia.
    destruct s' as [|b s']; simpl; [done|]. by rewrite Hstop.
  - simpl in Hall. apply andb_true_iff in Hall as [Ha Hall].
    simpl. rewrite Ha, (IH (Nat.pred low)); [done..| |done|done].
    simpl in Hlow. lia.
Qed.

(** On a key, white space and a quoted value the first branch of the
    pattern matches, up to the closing quote. *)
Lemma match_quoted key ws val rest :
  good_key key -> forallb (cmatch CSpace) ws = true -> ~ In dquote val ->
  match_here pattern (key ++ ws ++ dquote :: val ++ dquote :: rest)
  = Some (rest, <[2%nat := val]> (<[1%nat := key]> ∅)).
Proof.
  intros (Hne & Hkey & Hq) Hws Hval.
  assert (Hnotq : forallb (cmatch (CNot dquote)) val = true).
  { apply forallb_forall. intros c Hc. simpl.
    destruct (Ascii.eqb_spec c dquote) as [->|]; [done|done]. }
  unfold match_here, pattern. cbn [rmatch].
  erewrite rep_lazy_first; [reflexivity|exact Hkey| | |].
  - destruct key; [done|simpl; lia].
  - intros pre1 [|b pre2] -> Hne2 _; [done|].
    rewrite forallb_app in Hkey. apply andb_true_iff in Hkey as [_ Hkey].
    simpl in Hkey. apply andb_true_iff in Hkey as [Hb _].
    apply negb_true_iff in Hb.
    assert (Hbq : Ascii.eqb b dquote = false).
    { apply Ascii.eqb_neq. intros ->. apply Hq.
      apply in_app_iff. right. by left. }
    simpl. by rewrite Hb, Hbq.
  - erewrite rep_greedy_run;
      [reflexivity|exact Hws|simpl; lia|reflexivity|].
    cbn [rmatch cmatch]. change (Ascii.eqb dquote dquote) with true.
    cbn iota.
    erewrite rep_greedy_run;
      [reflexivity|exact Hnotq|simpl; lia|reflexivity|].
    change (Ascii.eqb dquote dquote) with true. cbn iota.
    rewrite !take_consumed.
    reflexivity.
Qed.

(** ** convert_attributes: the scan over a list of quoted pairs *)

Lemma finditer_from_skip r pre rest : forall pos,
  finditer_from r pos (length pre) (pre ++ rest)
  = finditer_from r (pos + length pre) 0 rest.
Proof.
  induction pre as [|a pre IH]; intros pos; simpl.
  - by rewrite Nat.add_0_r.
  - rewrite IH. f_equal. lia.
Qed.

Lemma finditer_from_hit r pos pre rest g :
  pre <> [] -> match_here r (pre ++ rest) = Some (rest, g) ->
  finditer_from r pos 0 (pre ++ rest)
  = MkMatch pos (pos + length pre) g
    :: finditer_from r (pos + length pre) 0 rest.
Proof.
  intros Hne Hm. destruct pre as [|a pre]; [done|].
  cbn [finditer_from app]. change (a :: pre ++ rest) with ((a :: pre) ++ rest).
  rewrite Hm.
  replace (length ((a :: pre) ++ rest) - length rest)%nat
    with (S (length pre)) by (rewrite length_app; simpl; lia).
  cbn [Nat.pred length]. rewrite finditer_from_skip.
  do 2 f_equal. lia.
Qed.

Lemma finditer_from_miss r pos a s :
  match_here r (a :: s) = None ->
  finditer_from r pos 0 (a :: s) = finditer_from r (S pos) 0 s.
Proof. intros Hm. cbn [finditer_from]. by rewrite Hm. Qed.

Lemma match_here_space a x :
  is_space a = true -> match_here pattern (a :: x) = None.
Proof.
  intros Ha. unfold match_here, pattern. simpl. by rewrite Ha.
Qed.

Lemma match_here_semicolon b x :
  is_space b = false -> Ascii.eqb b dquote = false ->
  match_here pattern (";"%char :: " "%char :: b :: x) = None.
Proof.
  intros Hb Hq. unfold match_here, pattern. simpl. by rewrite Hb, Hq.
Qed.

Lemma gff2_item_app kv rest :
  gff2_item kv ++ rest
  = kv.1 ++ str " " ++ dquote :: kv.2 ++ dquote :: rest.
Proof. unfold gff2_item. by rewrite <- !app_assoc. Qed.

Lemma render_quoted a b key val :
  key <> [] ->
  render_attr (MkMatch a b (<[2%nat := val]> (<[1%nat := key]> ∅)))
  = gff3_item (key, val).
Proof.
  intros Hne. unfold render_attr, key_val, group, gff3_item.
  simplify_map_eq. by destruct key.
Qed.

Lemma scan_quoted_items kvs tail :
  Forall (fun kv => good_key kv.1 /\ ~ In dquote kv.2) kvs ->
  tail = [] \/ tail = str ";" ->
  forall pos,
    map render_attr
      (finditer_from pattern pos 0
         (join (str "; ") (map gff2_item kvs) ++ tail))
    = map gff3_item kvs.
Proof.
  intros Hall Htail.
  assert (Hend : forall pos, finditer_from pattern pos 0 tail = []).
  { intros pos. by destruct Htail as [-> | ->]. }
  induction Hall as [|[key val] kvs [Hkey Hval] Hall IH]; intros pos.
  - simpl. by rewrite Hend.
  - assert (Hne : gff2_item (key, val) <> []).
    { unfold gff2_item. destruct Hkey as [Hk _]. simpl. by destruct key. }
    destruct kvs as [|[key2 val2] kvs].
    + cbn [map join].
      rewrite finditer_from_hit
        with (g := <[2%nat := val]> (<[1%nat := key]> ∅));
        [|done|rewrite gff2_item_app; by apply match_quoted].
      cbn [map]. rewrite Hend, render_quoted; [done|apply Hkey].
    + change (join (str "; ")
                (map gff2_item ((key, val) :: (key2, val2) :: kvs)))
        with (gff2_item (key, val) ++ str "; "
              ++ join (str "; ") (map gff2_item ((key2, val2) :: kvs))).
      rewrite <- !app_assoc.
      rewrite finditer_from_hit
        with (g := <[2%nat := val]> (<[1%nat := key]> ∅));
        [|done|rewrite gff2_item_app; by apply match_quoted].
      cbn [map]. rewrite render_quoted by apply Hkey. f_equal.
      inversion Hall as [|? ? [(Hk2 & Hs2 & Hq2) _] _]; subst.
      simpl in Hk2, Hs2, Hq2.
      assert (exists b x,
                join (str "; ") (map gff2_item ((key2, val2) :: kvs)) ++ tail
                = b :: x /\ is_space b = false
                /\ Ascii.eqb b dquote = false) as (b & x & Hbx & Hb & Hbq).
      { destruct key2 as [|b key2]; [done|].
        simpl in Hs2. apply andb_true_iff in Hs2 as [Hb _].
        apply negb_true_iff in Hb.
        exists b. destruct kvs; eexists; (split; [reflexivity|]);
          (split; [done|]); apply Ascii.eqb_neq; intros ->;
          apply Hq2; by left. }
      pose proof (IH (S (S (pos + length (gff2_item (key, val)))))) as IH'.
      rewrite Hbx in IH'. cbn [map] in Hbx. rewrite Hbx.
      change (str "; " ++ b :: x) with (";"%char :: " "%char :: b :: x).
      rewrite finditer_from_miss by (by apply match_here_semicolon).
      rewrite finditer_from_miss by (by apply match_here_space).
      exact IH'.
Qed.

(** X9.  A GFF2 attribute column in the quoted form, pairs of a key and
    a quoted value separated by a semicolon and a blank, with or without a
    last semicolon, is translated pair by pair: the result is the pairs
    in the form [key=value], in the same order, joined with a semicolon.
    The keys are not empty and hold no white space and no double quote;
    the values hold no double quote and are otherwise free (blanks,
    semicolons and equals signs are kept as they are). *)
Theorem convert_attributes_quoted_list (kvs : list (pystr * pystr)) :
  Forall (fun kv => good_key kv.1 /\ ~ In dquote kv.2) kvs ->
  convert_attributes (join (str "; ") (map gff2_item kvs))
  = join (str ";") (map gff3_item kvs)
  /\ convert_attributes (join (str "; ") (map gff2_item kvs) ++ str ";")
     = join (str ";") (map gff3_item kvs).
Proof.
  intros Hall. unfold convert_attributes, finditer. split.
  - rewrite <- (app_nil_r (join (str "; ") (map gff2_item kvs))).
    rewrite scan_quoted_items; auto.
  - rewrite scan_quoted_items; auto.
Qed.

Lemma convert_attributes_quoted_list_witness :
  convert_attributes
    (join (str "; ")
       (map gff2_item [(str "gene_id", str "G1");
                       (str "note", str "a b; c=d")]))
  = str "gene_id=G1;note=a b; c=d".
Proof.
  apply (convert_attributes_quoted_list
           [(str "gene_id", str "G1"); (str "note", str "a b; c=d")]).
  repeat constructor; simpl; try discriminate;
    vm_compute; intuition discriminate.
Defined.

(** ** convert_attributes: a pair already in the form of GFF3 *)

Lemma first_branch_needs_quote {R} s (k : pystr -> groups -> option R) x :
  rmatch (Cat (Grp 1 (Rep false 1 CNonSpace))
            (Cat (Rep true 0 CSpace)
               (Cat (One (CLit dquote))
                  (Cat (Grp 2 (Rep true 0 (CNot dquote)))
                     (One (CLit dquote)))))) s ∅ k = Some x ->
  In dquote s.
Proof.
  intros H. apply rmatch_sound in H as (s' & g' & Hm & _). inv_matches.
  match goal with H : cmatch (CLit dquote) ?a = true |- In dquote (_ ++ _ ++ ?a :: _) =>
    apply Ascii.eqb_eq in H; subst a
  end.
  rewrite !in_app_iff. right. right. by left.
Qed.

Lemma match_equals a m v :
  forallb (cmatch CNonSpace) (a :: m ++ "="%char :: v) = true ->
  ~ In dquote (a :: m ++ "="%char :: v) ->
  ~ In "="%char m -> v <> [] ->
  match_here pattern (a :: m ++ "="%char :: v)
  = Some ([], <[4%nat := v]> (<[3%nat := a :: m]> ∅)).
Proof.
  intros Hns Hq Hm Hv.
  assert (HA : rmatch (Cat (Grp 1 (Rep false 1 CNonSpace))
                 (Cat (Rep true 0 CSpace)
                    (Cat (One (CLit dquote))
                       (Cat (Grp 2 (Rep true 0 (CNot dquote)))
                          (One (CLit dquote))))))
                 (a :: m ++ "="%char :: v) ∅
                 (fun s' g => Some (s', g)) = None).
  { match goal with |- ?A = None => destruct A as [x|] eqn:E end; [|done].
    exfalso. apply Hq. eapply first_branch_needs_quote. exact E. }
  unfold match_here, pattern. cbn [rmatch]. cbn [rmatch] in HA.
  rewrite HA.
  change (a :: m ++ "="%char :: v) with ((a :: m) ++ "="%char :: v) in *.
  rewrite forallb_app in Hns. apply andb_true_iff in Hns as [Hkey Hval].
  simpl in Hval.
  erewrite rep_lazy_first; [reflexivity|exact Hkey|simpl; lia| |].
  - intros pre1 [|b pre2] Hsplit Hne Hlen; [done|].
    assert (Hb : Ascii.eqb b "="%char = false).
    { apply Ascii.eqb_neq. intros ->. apply Hm.
      destruct pre1 as [|a' pre1]; [simpl in Hlen; lia|].
      injection Hsplit as _ ->. apply in_app_iff. right. by left. }
    simpl. by rewrite Hb.
  - cbn [rmatch cmatch]. change (Ascii.eqb "=" "=") with true. cbn iota.
    rewrite <- (app_nil_r v) at 1.
    erewrite rep_greedy_run; [reflexivity|exact Hval| |done|].
    + destruct v; [done|simpl; lia].
    + replace (length v - length (@nil ascii))%nat with (length v)
        by (simpl; lia).
      rewrite take_ge by done.
      replace (length ((a :: m) ++ "="%char :: v)
               - length ("="%char :: v))%nat
        with (length (a :: m)) by (rewrite length_app; simpl; lia).
      by rewrite take_app_length.
Qed.

Lemma first_equals_split key val :
  key <> [] -> val <> [] ->
  exists a m v,
    key ++ "="%char :: val = a :: m ++ "="%char :: v
    /\ ~ In "="%char m /\ v <> [].
Proof.
  intros Hk Hv. destruct key as [|a key]; [done|].
  assert (Hin : "="%char ∈ key ++ "="%char :: val)
    by (apply list_elem_of_In, in_app_iff; right; by left).
  apply list_elem_of_split_l in Hin as (m & v & Heq & Hm).
  exists a, m, v. split; [simpl; by rewrite Heq|].
  split; [by rewrite <- list_elem_of_In|].
  intros ->. apply app_eq_app in Heq as [l [[Hkey Hl]|[Hmid Hl]]].
  - destruct l as [|c l]; simpl in Hl; [congruence|].
    injection Hl as _ Hl. by destruct l.
  - destruct l as [|c l]; simpl in Hl; [congruence|].
    injection Hl as <- _. apply Hm. rewrite Hmid.
    apply list_elem_of_In, in_app_iff. right. by left.
Qed.

(** X10.  A pair already written as [key=value], without white space and
    without a double quote, with a key and a value that are not empty, is
    left unchanged by the translation. *)
Theorem convert_attributes_gff3_pair (key val : pystr) :
  key <> [] -> val <> [] ->
  forallb (cmatch CNonSpace) (key ++ "="%char :: val) = true ->
  ~ In dquote (key ++ "="%char :: val) ->
  convert_attributes (key ++ "="%char :: val) = key ++ "="%char :: val.
Proof.
  intros Hk Hv Hns Hq.
  destruct (first_equals_split key val Hk Hv) as (a & m & v & Heq & Hm & Hv').
  rewrite Heq in *. unfold convert_attributes, finditer.
  rewrite <- (app_nil_r (a :: m ++ "="%char :: v)) at 1.
  rewrite finditer_from_hit
    with (g := <[4%nat := v]> (<[3%nat := a :: m]> ∅));
    [|done|rewrite app_nil_r; by apply match_equals].
  change (finditer_from pattern (0 + length (a :: m ++ "="%char :: v)) 0 [])
    with (@nil re_match).
  cbn [map join]. unfold render_attr, key_val, group. simplify_map_eq.
  reflexivity.
Qed.

Lemma convert_attributes_gff3_pair_witness :
  convert_attributes (str "Parent=gene1-PA;gene_id=G1")
  = str "Parent=gene1-PA;gene_id=G1".
Proof.
  apply (convert_attributes_gff3_pair (str "Parent")
           (str "gene1-PA;gene_id=G1")); try discriminate.
  - by vm_compute.
  - vm_compute. intuition discriminate.
Defined.

(** ** convert_attributes: the characters of the result *)

Lemma in_join c sep l :
  In c (join sep l) -> In c sep \/ exists x, In x l /\ In c x.
Proof.
  induction l as [|x l IH]; [done|].
  destruct l as [|y l].
  - simpl. intros H. right. exists x. split; [by left|done].
  - change (join sep (x :: y :: l)) with (x ++ sep ++ join sep (y :: l)).
    rewrite !in_app_iff. intros [H|[H|H]].
    + right. exists x. split; [by left|done].
    + by left.
    + destruct (IH H) as [?|(z & Hz & Hc)]; [by left|].
      right. exists z. split; [by right|done].
Qed.

Lemma render_attr_chars s m c :
  match_at pattern s m -> In c (render_attr m) ->
  In c s \/ c = "="%char.
Proof.
  intros (_ & _ & Hm) Hc.
  assert (Hsub : forall d, In d (drop (m_start m) s) -> In d s).
  { intros d Hd. rewrite <- (take_drop (m_start m) s). apply in_app_iff.
    by right. }
  unfold render_attr, key_val, group in Hc.
  apply pattern_shapes in Hm as [(key & ws & val & Hs & Hk & _ & _ & _ & Hg)
                                |(key & val & Hs & Hk & _ & _ & _ & Hg)];
    rewrite Hg in Hc; simplify_map_eq.
  - assert (Hkv : In c (key ++ str "=" ++ val))
      by (destruct key; [done|exact Hc]).
    rewrite !in_app_iff in Hkv. destruct Hkv as [H|[H|H]].
    + left. apply Hsub. rewrite Hs. apply in_app_iff. by left.
    + right. change (In c (str "=")) with ("="%char = c \/ False) in H.
      destruct H as [H|H]; [by subst|done].
    + left. apply Hsub. rewrite Hs, !in_app_iff. right. right. right.
      apply in_app_iff. by left.
  - cbn [fmt] in Hc. rewrite !in_app_iff in Hc. destruct Hc as [H|[H|H]].
    + left. apply Hsub. rewrite Hs. apply in_app_iff. by left.
    + right. by subst.
    + left. apply Hsub. rewrite Hs, in_app_iff. right. right.
      apply in_app_iff. by left.
Qed.

Lemma convert_attributes_chars s c :
  In c (convert_attributes s) ->
  In c s \/ c = "="%char \/ c = ";"%char.
Proof.
  unfold convert_attributes. intros H.
  apply in_join in H as [[H|[]]|(x & Hx & Hc)]; [by right; right|].
  apply in_map_iff in Hx as (m & <- & Hm).
  pose proof (finditer_match_at pattern s) as Hall.
  rewrite Forall_forall in Hall.
  destruct (render_attr_chars s m c) as [?|?]; auto.
  by apply Hall, list_elem_of_In.
Qed.

(** X11.  The translation adds no character other than the equals sign
    and the semicolon: every other character of the result is one of the
    attribute string.  In particular an attribute string without a tab
    gives a result without a tab, and one without a line end gives a
    result without a line end, so the translated attributes stay within
    one column of one line. *)
Theorem convert_attributes_adds_no_separator (attr_str : pystr) :
  (forall c, In c (convert_attributes attr_str) ->
             In c attr_str \/ c = "="%char \/ c = ";"%char)
  /\ (~ In tab attr_str -> ~ In tab (convert_attributes attr_str))
  /\ (~ In newline attr_str -> ~ In newline (convert_attributes attr_str)).
Proof.
  split; [intros c; apply convert_attributes_chars|].
  split; intros Hno Hin; apply convert_attributes_chars in Hin
    as [?|[?|?]]; try done.
Qed.

Lemma convert_attributes_adds_no_separator_witness :
  ~ In tab (convert_attributes example_gff2_attributes).
Proof.
  apply (convert_attributes_adds_no_separator example_gff2_attributes).
  vm_compute. intuition discriminate.
Defined.

(** ** The lines of a text *)

Lemma readlines_line body rest :
  no_line_end body ->
  readlines (body ++ newline :: rest) = (body ++ [newline]) :: readlines rest.
Proof.
  intros [Hn Hc]. induction body as [|c body IH]; [done|].
  simpl in Hn, Hc. cbn [app readlines].
  destruct (Ascii.eqb_spec c newline) as [->|_]; [tauto|].
  destruct (Ascii.eqb_spec c carriage_return) as [->|_]; [tauto|].
  rewrite IH by tauto. done.
Qed.

Lemma readlines_concat lines :
  Forall (fun l => exists body, l = body ++ [newline] /\ no_line_end body)
    lines ->
  readlines (concat lines) = lines.
Proof.
  induction 1 as [|l lines (body & -> & Hbody) _ IH]; [done|].
  cbn [concat]. rewrite <- app_assoc. cbn [app].
  by rewrite readlines_line, IH.
Qed.

(** Every line read is a text without a line end, followed or not by the
    line feed that ends it. *)
Lemma readlines_bodies_bounded n : forall text,
  (length text <= n)%nat ->
  Forall (fun l => exists body,
            no_line_end body /\ (l = body ++ [newline] \/ l = body))
    (readlines text).
Proof.
  induction n as [|n IH]; intros text Hlen.
  - destruct text; [constructor|simpl in Hlen; lia].
  - destruct text as [|c rest]; [constructor|]. simpl in Hlen.
    assert (Hnl : exists body : pystr,
              no_line_end body
              /\ ([newline] = body ++ [newline] \/ [newline] = body)).
    { exists []. split; [split; intros []|by left]. }
    cbn [readlines].
    destruct (Ascii.eqb_spec c newline) as [->|Hn].
    { constructor; [done|]. apply IH. lia. }
    destruct (Ascii.eqb_spec c carriage_return) as [->|Hc].
    { destruct rest as [|d rest']; [by repeat constructor|].
      destruct (Ascii.eqb d newline);
        (constructor; [done|]); apply IH; simpl in *; lia. }
    assert (Hrest : Forall (fun l => exists body,
                       no_line_end body
                       /\ (l = body ++ [newline] \/ l = body))
                      (readlines rest)) by (apply IH; lia).
    destruct (readlines rest) as [|l ls].
    + constructor; [|constructor]. exists [c]. split; [|by right].
      split; intros [H|[]]; congruence.
    + inversion Hrest as [|? ? (body & [Hbn Hbc] & Hl) Hls]; subst.
      constructor; [|done]. exists (c :: body). split.
      * split; intros [H|H]; try congruence; tauto.
      * destruct Hl as [->| ->]; [by left|by right].
Qed.

Lemma readlines_bodies text :
  Forall (fun l => exists body,
            no_line_end body /\ (l = body ++ [newline] \/ l = body))
    (readlines text).
Proof. by apply (readlines_bodies_bounded (length text)). Qed.

(** ** Stripping and splitting keep to the characters of the text *)

Lemma lstrip_char_in c d s : In d (lstrip_char c s) -> In d s.
Proof.
  induction s as [|a s IH]; [done|]. simpl.
  destruct (Ascii.eqb a c); [|done]. intros H. right. by apply IH.
Qed.

Lemma rstrip_char_in c d s : In d (rstrip_char c s) -> In d s.
Proof.
  unfold rstrip_char. rewrite <- in_rev. intros H.
  apply lstrip_char_in in H. by apply in_rev.
Qed.

Lemma rstrip_char_snoc c s :
  rstrip_char c (s ++ [c]) = rstrip_char c s.
Proof.
  unfold rstrip_char. rewrite rev_app_distr. simpl.
  by rewrite Ascii.eqb_refl.
Qed.

Lemma rstrip_char_id c s : ~ In c s -> rstrip_char c s = s.
Proof.
  intros Hno. unfold rstrip_char.
  assert (Hrev : ~ In c (rev s)) by (by rewrite <- in_rev).
  destruct (rev s) as [|a t] eqn:Hs.
  - simpl. by rewrite <- (rev_involutive s), Hs.
  - simpl in *. destruct (Ascii.eqb_spec a c) as [->|_]; [tauto|].
    by rewrite <- Hs, rev_involutive.
Qed.

Lemma split_field_in sep s f d :
  In f (split sep s) -> In d f -> In d s.
Proof.
  revert f. induction s as [|c s IH]; intros f Hf Hd; simpl in Hf.
  - destruct Hf as [<-|[]]. done.
  - destruct (Ascii.eqb c sep).
    + destruct Hf as [<-|Hf]; [done|]. right. by eapply IH.
    + destruct (split sep s) as [|g gs].
      * destruct Hf as [<-|[]]. destruct Hd as [->|[]]. by left.
      * destruct Hf as [<-|Hf].
        -- destruct Hd as [->|Hd]; [by left|].
           right. apply (IH g); [by left|done].
        -- right. apply (IH f); [by right|done].
Qed.

Lemma column_in i line d :
  In d (column i line) -> In d (rstrip_char newline line).
Proof.
  unfold column, columns. intros Hd.
  destruct (nth_in_or_default i (split tab (rstrip_char newline line)) [])
    as [Hin|Hdef].
  - by eapply split_field_in.
  - by rewrite Hdef in Hd.
Qed.

(** The columns of a line read from a file are clean. *)
Lemma column_clean i line :
  (exists body,
     no_line_end body /\ (line = body ++ [newline] \/ line = body)) ->
  clean (column i line).
Proof.
  intros (body & [Hn Hc] & Hline). split; [apply column_no_tab|].
  assert (Hsub : forall d, In d (column i line) -> In d body).
  { intros d Hd. apply column_in in Hd.
    destruct Hline as [-> | ->].
    - rewrite rstrip_char_snoc in Hd. by apply rstrip_char_in in Hd.
    - by apply rstrip_char_in in Hd. }
  split; intros H; apply Hsub in H; tauto.
Qed.

Lemma str_of_int_chars n c :
  In c (str_of_int n) -> is_digit c = true \/ c = "-"%char.
Proof.
  assert (Hd : forall d, In c (list_ascii_of_string
                                 (NilEmpty.string_of_uint d)) ->
                         is_digit c = true).
  { induction d; simpl; try tauto; intros [<-|H]; auto. }
  unfold str_of_int, NilZero.string_of_int, NilZero.string_of_uint.
  destruct (Z.to_int n) as [d|d]; simpl.
  - intros H. left. destruct d; try (by apply Hd in H).
    by destruct H as [<-|[]].
  - intros [<-|H]; [by right|]. left.
    destruct d; try (by apply Hd in H). by destruct H as [<-|[]].
Qed.

Lemma str_of_int_clean n : clean (str_of_int n).
Proof.
  split; [apply str_of_int_no_tab|].
  split; intros H; apply str_of_int_chars in H as [H| H]; discriminate.
Qed.

(** ** What parse_gff2 keeps is clean *)

Lemma feature_of_line_clean l f :
  (exists body,
     no_line_end body /\ (l = body ++ [newline] \/ l = body)) ->
  feature_of_line l = Some f -> clean_feature f.
Proof.
  intros Hl. unfold feature_of_line.
  destruct (py_int (column 3 l)) as [s|]; [|done].
  destruct (py_int (column 4 l)) as [e|]; [|done].
  intros [= <-]. unfold clean_feature. simpl.
  repeat split; try (by apply column_clean); try apply column_no_tab;
    intros H; apply convert_attributes_chars in H as [H|[H|H]];
    try discriminate;
    [by apply column_no_tab in H
    |by apply (column_clean 8 l Hl) in H
    |by apply (column_clean 8 l Hl) in H].
Qed.

Lemma parse_gff2_clean (fsys : filesystem) path r :
  parse_gff2 fsys path = Ok r ->
  (exists text l sid sd,
     fsys !! path = Some text
     /\ In l (readlines text) /\ feature_line l = true
     /\ column 0 l = sid /\ column 6 l = sd
     /\ p_seqid r = Some sid /\ p_strand r = Some sd
     /\ clean sid /\ clean sd)
  /\ Forall clean_feature (p_features r).
Proof.
  unfold parse_gff2, parse_lines.
  destruct (fsys !! path) as [text|]; [|done].
  destruct (parse_loop pstate0 (readlines text)) as [st|] eqn:Hloop; [|done].
  simpl. destruct (py_min (starts st)) as [lo|] eqn:Hlo; [|done]. simpl.
  destruct (py_max (ends st)) as [hi|]; [|done]. simpl.
  intros [= <-]. simpl.
  pose proof (parse_loop_collects _ _ _ Hloop) as (cs & Hc & H1 & _).
  pose proof (parse_loop_records _ _ _ Hloop) as (fs & Hfs & Hall & Hlast).
  simpl in Hfs, H1. subst fs.
  pose proof (readlines_bodies text) as Hbodies.
  rewrite Forall_forall in Hbodies.
  assert (Hsub : forall l, In l (List.filter feature_line (readlines text)) ->
                   In l (readlines text) /\ feature_line l = true)
    by (intros l; apply filter_In).
  split.
  - destruct (last (List.filter feature_line (readlines text)))
      as [l|] eqn:Hl.
    + assert (Hin : In l (List.filter feature_line (readlines text))).
      { apply list_elem_of_In. by apply last_Some_elem_of. }
      apply Hsub in Hin as [Hin Hf]. inversion Hlast.
      exists text, l, (column 0 l), (column 6 l).
      repeat split; try done;
        try apply column_no_tab;
        by apply (column_clean _ l), Hbodies, list_elem_of_In.
    + apply last_None in Hl. rewrite Hl in Hc. inversion Hc; subst.
      simpl in H1. by rewrite H1 in Hlo.
  - assert (Hleft : Forall (fun l => exists body,
                       no_line_end body
                       /\ (l = body ++ [newline] \/ l = body))
                      (List.filter feature_line (readlines text))).
    { apply Forall_forall. intros l Hl. apply list_elem_of_In in Hl.
      apply Hsub in Hl as [Hl _]. by apply Hbodies, list_elem_of_In. }
    clear -Hall Hleft. induction Hall as [|l f ls fs Hf _ IH]; [done|].
    inversion Hleft; subst. constructor; [|by apply IH].
    by eapply feature_of_line_clean.
Qed.

(** ** write_gff3: one string written, one line of the file *)

Lemma no_line_end_app a b :
  no_line_end a -> no_line_end b -> no_line_end (a ++ b).
Proof.
  intros [Ha1 Ha2] [Hb1 Hb2]. split; rewrite in_app_iff; tauto.
Qed.

Ltac plain_leaf :=
  first [ assumption
        | apply str_of_int_clean
        | split; vm_compute; intuition discriminate ].

Lemma line_step a b :
  no_line_end a ->
  (exists body, b = body ++ [newline] /\ no_line_end body) ->
  exists body, a ++ b = body ++ [newline] /\ no_line_end body.
Proof.
  intros Ha (body & -> & Hbody). exists (a ++ body).
  split; [by rewrite app_assoc|by apply no_line_end_app].
Qed.

Lemma line_end :
  exists body, [newline] = body ++ [newline] /\ no_line_end body.
Proof. exists []. split; [done|]. split; intros []. Qed.

Ltac plain_line :=
  repeat (apply line_step; [plain_leaf|]); apply line_end.

Lemma gff3_lines_bodies base seqid start end_ strand fs :
  no_line_end base -> no_line_end (fmt seqid) -> no_line_end (fmt strand) ->
  Forall clean_feature fs ->
  Forall (fun l => exists body, l = body ++ [newline] /\ no_line_end body)
    (gff3_lines base seqid start end_ strand fs).
Proof.
  intros Hb Hs Hd Hfs. unfold gff3_lines.
  assert (Hid : no_line_end (mrna_id base)).
  { unfold mrna_id. apply no_line_end_app; plain_leaf. }
  repeat (apply Forall_cons; split); [| | |apply Forall_app; split].
  - plain_line.
  - plain_line.
  - unfold mrna_line. plain_line.
  - rewrite child_lines_filter. apply Forall_forall. intros l Hl.
    apply list_elem_of_In, in_map_iff in Hl as (f & <- & Hf).
    apply filter_In in Hf as [Hf _]. rewrite Forall_forall in Hfs.
    destruct (Hfs f) as ((_ & Ht) & (_ & Hsc) & (_ & Hst) & (_ & Hph)
                         & (_ & Hat)); [by apply list_elem_of_In|].
    unfold child_line. plain_line.
  - repeat constructor. plain_line.
Qed.



(** ** Integers written are read back *)

Lemma of_uint_acc_value d : forall acc,
  Z.pos (Pos.of_uint_acc d acc) = uint_value d (Z.pos acc).
Proof.
  induction d; intros acc; cbn [Pos.of_uint_acc uint_value]; try done;
    rewrite IHd; f_equal; lia.
Qed.

Lemma of_uint_value d : Z.of_uint d = uint_value d 0.
Proof.
  unfold Z.of_uint. induction d; simpl; try done;
    by rewrite of_uint_acc_value.
Qed.
Lemma scan_digits_uint d : forall acc n,
  scan_digits false acc n (list_ascii_of_string (NilEmpty.string_of_uint d))
  = Some (uint_value d acc, (n + Decimal.nb_digits d)%nat, []).
Proof.
  induction d; intros acc n;
    cbn [list_ascii_of_string NilEmpty.string_of_uint scan_digits
         uint_value Decimal.nb_digits];
    [by rewrite Nat.add_0_r|..];
    match goal with
    | |- (if is_digit ?c then _ else _) = _ =>
        change (is_digit c) with true; cbn iota;
        rewrite IHd; unfold digit_val;
        match goal with
        | |- context [Z.of_N (N_of_ascii ?c)] =>
            let v := eval vm_compute in (Z.of_N (N_of_ascii c)) in
            change (Z.of_N (N_of_ascii c)) with v
        end;
        repeat (f_equal; try lia)
    end.
Qed.

Lemma uint_digits_ascii d :
  forallb (fun c => (N_of_ascii c <? 128)%N)
    (list_ascii_of_string (NilEmpty.string_of_uint d)) = true.
Proof. induction d; simpl; auto. Qed.

Lemma digit_plain c :
  is_digit c = true ->
  is_c_space c = false /\ Ascii.eqb c "+" = false
  /\ Ascii.eqb c "-" = false /\ Ascii.eqb "_" c = false.
Proof.
  destruct c as [[] [] [] [] [] [] [] []]; vm_compute; intros H;
    try discriminate H; done.
Qed.

Lemma py_int_digits c s v n :
  is_digit c = true ->
  forallb (fun c => (N_of_ascii c <? 128)%N) (c :: s) = true ->
  scan_digits false 0 0 (c :: s) = Some (v, S n, []) ->
  py_int (c :: s) = Some v /\ py_int ("-"%char :: c :: s) = Some (- v).
Proof.
  intros Hc Ha Hs. destruct (digit_plain c Hc) as (Hsp & Hp & Hm & Hu).
  split; unfold py_int, to_ascii_number.
  - rewrite Ha. cbn [skip_c_space]. rewrite Hsp, Hp, Hm.
    cbn [startswith str list_ascii_of_string]. rewrite Hu, Hs. cbn [andb].
    cbn [Nat.eqb skip_c_space]. f_equal; try lia.
  - change (forallb _ ("-"%char :: c :: s))
      with (forallb (fun c => (N_of_ascii c <? 128)%N) (c :: s)).
    rewrite Ha. cbn [skip_c_space].
    change (is_c_space "-") with false. cbn iota.
    change (Ascii.eqb "-" "+") with false.
    change (Ascii.eqb "-" "-") with true. cbn iota.
    cbn [startswith str list_ascii_of_string]. rewrite Hu, Hs. cbn [andb].
    cbn [Nat.eqb skip_c_space]. f_equal; try lia.
Qed.

Lemma py_int_uint d :
  d <> Decimal.Nil ->
  py_int (list_ascii_of_string (NilEmpty.string_of_uint d))
  = Some (uint_value d 0)
  /\ py_int ("-"%char :: list_ascii_of_string (NilEmpty.string_of_uint d))
     = Some (- uint_value d 0).
Proof.
  intros Hd. pose proof (uint_digits_ascii d) as Hascii.
  pose proof (scan_digits_uint d 0 0) as Hscan.
  destruct d; [done|..];
    cbn [list_ascii_of_string NilEmpty.string_of_uint] in *;
    eapply py_int_digits; try done; rewrite Hscan; done.
Qed.

Lemma uint_value_to_uint p : uint_value (Pos.to_uint p) 0 = Z.pos p.
Proof.
  rewrite <- of_uint_value. unfold Z.of_uint.
  by rewrite DecimalPos.Unsigned.of_to.
Qed.

Lemma str_of_int_pos p :
  str_of_int (Z.pos p)
  = list_ascii_of_string (NilEmpty.string_of_uint (Pos.to_uint p)).
Proof.
  unfold str_of_int, NilZero.string_of_int, NilZero.string_of_uint.
  cbn [Z.to_int].
  pose proof (DecimalPos.Unsigned.to_uint_nonnil p) as Hn.
  by destruct (Pos.to_uint p).
Qed.

Lemma str_of_int_neg p :
  str_of_int (Z.neg p)
  = "-"%char
    :: list_ascii_of_string (NilEmpty.string_of_uint (Pos.to_uint p)).
Proof.
  unfold str_of_int, NilZero.string_of_int, NilZero.string_of_uint.
  cbn [Z.to_int].
  pose proof (DecimalPos.Unsigned.to_uint_nonnil p) as Hn.
  by destruct (Pos.to_uint p).
Qed.

Lemma py_int_str_of_int z : py_int (str_of_int z) = Some z.
Proof.
  destruct z as [|p|p].
  - by vm_compute.
  - rewrite str_of_int_pos.
    destruct (py_int_uint (Pos.to_uint p)) as [-> _];
      [apply DecimalPos.Unsigned.to_uint_nonnil|].
    by rewrite uint_value_to_uint.
  - rewrite str_of_int_neg.
    destruct (py_int_uint (Pos.to_uint p)) as [_ ->];
      [apply DecimalPos.Unsigned.to_uint_nonnil|].
    by rewrite uint_value_to_uint.
Qed.

(** ** The written file read by parse_gff2 *)

Lemma startswith_first_column p : forall sid x y,
  ~ In tab p ->
  startswith (sid ++ tab :: x) p = startswith (sid ++ tab :: y) p.
Proof.
  induction p as [|c p IH]; intros sid x y Hp; [by destruct sid|].
  destruct sid as [|d sid]; simpl.
  - destruct (Ascii.eqb_spec c tab) as [->|_]; [|done].
    exfalso. apply Hp. by left.
  - f_equal. apply IH. intros H. apply Hp. by right.
Qed.

Lemma is_comment_first_column sid x y :
  is_comment (sid ++ tab :: x) = is_comment (sid ++ tab :: y).
Proof.
  unfold is_comment.
  rewrite (startswith_first_column (str "track") sid x y),
    (startswith_first_column (str "##") sid x y),
    (startswith_first_column (str "#") sid x y);
    [done|..]; vm_compute; intuition discriminate.
Qed.

Lemma lstrip_char_prefix c s : exists pre, s = pre ++ lstrip_char c s.
Proof.
  induction s as [|a s [pre IH]]; [by exists []|]. simpl.
  destruct (Ascii.eqb a c); [|by exists []].
  exists (a :: pre). simpl. by rewrite <- IH.
Qed.

Lemma rstrip_char_suffix c s : exists tail, s = rstrip_char c s ++ tail.
Proof.
  unfold rstrip_char. destruct (lstrip_char_prefix c (rev s)) as [pre H].
  exists (rev pre). rewrite <- rev_app_distr, <- H. by rewrite rev_involutive.
Qed.

Lemma split_two_fields s : forall a b fs,
  split tab s = a :: b :: fs -> exists rest, s = a ++ tab :: rest.
Proof.
  induction s as [|c s IH]; intros a b fs; [done|]. simpl.
  destruct (Ascii.eqb_spec c tab) as [->|_].
  - intros [= <- _]. by exists s.
  - destruct (split tab s) as [|f [|g gs]] eqn:Hs; [done|done|].
    intros [= <- <- <-]. destruct (IH _ _ _ eq_refl) as [rest ->].
    by exists rest.
Qed.

Lemma first_column_prefix line :
  (2 <= length (columns line))%nat ->
  exists rest, line = column 0 line ++ tab :: rest.
Proof.
  unfold column, columns. intros Hlen.
  destruct (rstrip_char_suffix newline line) as [tail Htail].
  destruct (split tab (rstrip_char newline line)) as [|a [|b fs]] eqn:Hs;
    [simpl in Hlen; lia..|].
  destruct (split_two_fields _ _ _ _ Hs) as [rest Hrest].
  exists (rest ++ tail). simpl. rewrite Htail at 1. rewrite Hrest.
  by rewrite <- app_assoc.
Qed.

Lemma lstrip_char_stop c d y : forall x,
  d <> c -> lstrip_char c (x ++ d :: y) = lstrip_char c x ++ d :: y.
Proof.
  induction x as [|a x IH]; intros Hd; simpl.
  - by destruct (Ascii.eqb_spec d c).
  - destruct (Ascii.eqb a c); [by apply IH|done].
Qed.

Lemma columns_cons a rest :
  ~ In tab a -> columns (a ++ [tab] ++ rest) = a :: columns rest.
Proof.
  intros Ha. unfold columns, rstrip_char.
  rewrite rev_app_distr. simpl. rewrite <- app_assoc. simpl.
  rewrite lstrip_char_stop by (by vm_compute).
  rewrite rev_app_distr. simpl. rewrite <- app_assoc. simpl.
  rewrite rev_involutive.
  by apply (split_app_tab a (rev (lstrip_char newline (rev rest)))).
Qed.

Lemma columns_last a :
  clean a -> columns (a ++ [newline]) = [a].
Proof.
  intros [Htab [Hnl _]]. unfold columns.
  rewrite rstrip_char_snoc, rstrip_char_id by done. by apply split_no_sep.
Qed.

Lemma parse_line_columns st line c0 c1 c2 c3 c4 c5 c6 c7 c8 s e :
  is_comment line = false ->
  columns line = [c0; c1; c2; c3; c4; c5; c6; c7; c8] ->
  py_int c3 = Some s -> py_int c4 = Some e ->
  parse_line st line
  = Ok (MkPState
          (features st
           ++ [MkFeature c2 s e c5 c6 c7 (convert_attributes c8)])
          (starts st ++ [s]) (ends st ++ [e]) (Some c0) (Some c6)).
Proof.
  intros Hc Hcols Hs He. unfold parse_line. rewrite Hc, Hcols.
  cbn [length Nat.ltb Nat.leb]. unfold int_or_raise. by rewrite Hs, He.
Qed.

Lemma clean_app a b : clean a -> clean b -> clean (a ++ b).
Proof.
  intros [Ha1 Ha2] [Hb1 Hb2]. split; [|by apply no_line_end_app].
  rewrite in_app_iff. tauto.
Qed.

Lemma clean_str_literal s :
  forallb (fun c => negb (Ascii.eqb c tab) && negb (Ascii.eqb c newline)
                    && negb (Ascii.eqb c carriage_return)) s = true ->
  clean s.
Proof.
  intros H. rewrite forallb_forall in H.
  repeat split; intros Hin; apply H in Hin; by vm_compute in Hin.
Qed.

Ltac clean_col :=
  repeat first
    [ assumption
    | apply str_of_int_clean
    | apply clean_app
    | by apply clean_str_literal ].

Lemma mrna_line_columns base sid start end_ sd :
  clean base -> clean sid -> clean sd ->
  columns (mrna_line base (Some sid) start end_ (Some sd))
  = [sid; str "."; str "mRNA"; str_of_int start; str_of_int end_; str ".";
     sd; str ".";
     str "ID=" ++ mrna_id base ++ str ";transcript_id=" ++ mrna_id base].
Proof.
  intros Hb [Hs _] [Hd _]. unfold mrna_line, fmt.
  repeat (rewrite columns_cons by no_tab).
  rewrite !app_assoc, columns_last; [by rewrite <- !app_assoc|].
  unfold mrna_id. clean_col.
Qed.

Lemma child_line_columns base sid f :
  clean base -> clean sid -> clean_feature f ->
  columns (child_line base (Some sid) f)
  = [sid; str "GEP"; ftype f; str_of_int (fstart f); str_of_int (fend f);
     fscore f; fstrand f; fphase f;
     str "Parent=" ++ mrna_id base ++ str ";" ++ fattrs f].
Proof.
  intros Hb [Hs _] ([Ht _] & [Hsc _] & [Hsd _] & [Hph _] & Hat).
  unfold child_line, fmt.
  repeat (rewrite columns_cons by no_tab).
  rewrite !app_assoc, columns_last; [by rewrite <- !app_assoc|].
  unfold mrna_id. clean_col.
Qed.

Lemma parse_line_mrna_line st base sid start end_ sd x :
  is_comment (sid ++ tab :: x) = false ->
  clean base -> clean sid -> clean sd ->
  parse_line st (mrna_line base (Some sid) start end_ (Some sd))
  = Ok (MkPState
          (features st
           ++ [MkFeature (str "mRNA") start end_ (str ".") sd (str ".")
                 (convert_attributes
                    (str "ID=" ++ mrna_id base ++ str ";transcript_id="
                     ++ mrna_id base))])
          (starts st ++ [start]) (ends st ++ [end_]) (Some sid) (Some sd)).
Proof.
  intros Hc Hb Hs Hd.
  eapply parse_line_columns;
    [rewrite <- Hc; apply is_comment_first_column
    |by apply mrna_line_columns
    |apply py_int_str_of_int..].
Qed.

Lemma parse_line_child_line st base sid f x :
  is_comment (sid ++ tab :: x) = false ->
  clean base -> clean sid -> clean_feature f ->
  parse_line st (child_line base (Some sid) f)
  = Ok (MkPState (features st ++ [child_feature base f])
          (starts st ++ [fstart f]) (ends st ++ [fend f])
          (Some sid) (Some (fstrand f))).
Proof.
  intros Hc Hb Hs Hf.
  eapply parse_line_columns;
    [rewrite <- Hc; apply is_comment_first_column
    |by apply child_line_columns
    |apply py_int_str_of_int..].
Qed.

Lemma parse_loop_child_lines base sid x cs : forall st,
  is_comment (sid ++ tab :: x) = false ->
  clean base -> clean sid -> Forall clean_feature cs ->
  parse_loop st (map (child_line base (Some sid)) cs)
  = Ok (MkPState (features st ++ map (child_feature base) cs)
          (starts st ++ map fstart cs) (ends st ++ map fend cs)
          (match last cs with Some _ => Some sid | None => seqid st end)
          (match last cs with
           | Some f => Some (fstrand f)
           | None => strand st
           end)).
Proof.
  induction cs as [|c cs IH]; intros st Hc Hb Hs Hcs.
  - simpl. rewrite !app_nil_r. by destruct st.
  - inversion Hcs as [|? ? Hf Hrest]; subst. cbn [map parse_loop].
    rewrite (parse_line_child_line st base sid c x) by done.
    cbn [mbind result_bind]. rewrite IH by done.
    cbn [features starts ends seqid strand].
    rewrite <- !app_assoc. cbn [app].
    destruct cs as [|c' cs]; [by simpl|]. rewrite last_cons_cons.
    destruct (last (c' :: cs)) eqn:Hl; [done|]. by apply last_None in Hl.
Qed.

Lemma fold_left_min_head xs : forall x,
  Forall (fun y => x <= y) xs -> fold_left Z.min xs x = x.
Proof.
  induction xs as [|y xs IH]; intros x H; [done|].
  inversion H; subst. simpl. rewrite Z.min_l by done. by apply IH.
Qed.

Lemma fold_left_max_head xs : forall x,
  Forall (fun y => y <= x) xs -> fold_left Z.max xs x = x.
Proof.
  induction xs as [|y xs IH]; intros x H; [done|].
  inversion H; subst. simpl. rewrite Z.max_l by done. by apply IH.
Qed.

Lemma parse_gff2_bounds (fsys : filesystem) path r :
  parse_gff2 fsys path = Ok r ->
  Forall (fun f => p_start r <= fstart f /\ fend f <= p_end r)
    (p_features r).
Proof.
  unfold parse_gff2. destruct (fsys !! path) as [text|]; [|done].
  intros H. apply parse_lines_span in H
    as (coords & _ & [_ Hmin] & [_ Hmax] & Hs & He).
  rewrite <- Hs in Hmin. rewrite <- He in Hmax.
  apply Forall_forall. intros f Hf. apply list_elem_of_In in Hf.
  split; [apply Hmin|apply Hmax]; by apply in_map.
Qed.

Lemma is_comment_hash rest : is_comment ("#"%char :: rest) = true.
Proof.
  unfold is_comment. apply orb_true_iff. right. by destruct rest.
Qed.

Lemma parse_line_hash st s rest :
  parse_line st (str (String "#" s) ++ rest) = Ok st.
Proof.
  change (str (String "#" s) ++ rest) with ("#"%char :: str s ++ rest).
  unfold parse_line. by rewrite is_comment_hash.
Qed.

Lemma children_clean fs :
  Forall clean_feature fs -> Forall clean_feature (children fs).
Proof.
  rewrite !Forall_forall. intros H f Hf. apply H.
  apply list_elem_of_In. apply list_elem_of_In in Hf.
  by apply filter_In in Hf as [Hf _].
Qed.

Lemma children_bounds lo hi fs :
  Forall (fun f => lo <= fstart f /\ fend f <= hi) fs ->
  Forall (fun y => lo <= y) (map fstart (children fs))
  /\ Forall (fun y => y <= hi) (map fend (children fs)).
Proof.
  intros H. unfold children.
  induction H as [|f fs [Hlo Hhi] _ [IH1 IH2]]; [by split|]. simpl.
  destruct (is_child_type (ftype f)); [|done].
  split; by constructor.
Qed.

Lemma parse_lines_gff3_lines base sid sd lo hi fs x :
  is_comment (sid ++ tab :: x) = false ->
  clean base -> clean sid -> clean sd -> Forall clean_feature fs ->
  Forall (fun f => lo <= fstart f /\ fend f <= hi) fs ->
  parse_lines (gff3_lines base (Some sid) lo hi (Some sd) fs)
  = Ok (MkParsed (Some sid) lo hi
          (match last (children fs) with
           | Some f => Some (fstrand f)
           | None => Some sd
           end)
          (MkFeature (str "mRNA") lo hi (str ".") sd (str ".")
             (convert_attributes
                (str "ID=" ++ mrna_id base ++ str ";transcript_id="
                 ++ mrna_id base))
           :: map (child_feature base) (children fs))).
Proof.
  intros Hc Hb Hs Hd Hfs Hbounds.
  destruct (children_bounds _ _ _ Hbounds) as [Hlo Hhi].
  unfold parse_lines, gff3_lines. cbn [app parse_loop].
  rewrite parse_line_hash. cbn [mbind result_bind].
  rewrite parse_line_hash. cbn [mbind result_bind].
  rewrite (parse_line_mrna_line pstate0 base sid lo hi sd x) by done.
  cbn [mbind result_bind]. rewrite parse_loop_app, child_lines_filter.
  fold (children fs).
  rewrite (parse_loop_child_lines base sid x) by (by try apply children_clean).
  cbn [mbind result_bind parse_loop features starts ends seqid strand
       pstate0 app].
  rewrite parse_line_hash.
  cbn [mbind result_bind features starts ends seqid strand py_min py_max].
  rewrite fold_left_min_head, fold_left_max_head by done.
  cbn [mbind result_bind]. do 2 f_equal.
  by destruct (last (children fs)).
Qed.

(** X13.  A file written by [write_gff3] from the result of [parse_gff2]
    is itself read by [parse_gff2] without an error, when the base name
    holds no tab and no line end: the two directive lines and the closing
    line are passed over, the mRNA line and the line of every CDS and exon
    give one record each, in order, and the sequence id, the start and the
    end returned are those of the first reading.  The strand returned is
    that of the last CDS or exon, if there is one. *)
Theorem written_file_parses_back
    (fsys : filesystem) (path out base : pystr) (r : parsed) :
  parse_gff2 fsys path = Ok r -> clean base ->
  parse_gff2
    (write_gff3 fsys out base (p_seqid r) (p_start r) (p_end r)
       (p_strand r) (p_features r)) out
  = Ok (MkParsed (p_seqid r) (p_start r) (p_end r)
          (match last (children (p_features r)) with
           | Some f => Some (fstrand f)
           | None => p_strand r
           end)
          (mrna_feature base r
           :: map (child_feature base) (children (p_features r)))).
Proof.
  intros Hr Hbase.
  pose proof (parse_gff2_bounds _ _ _ Hr) as Hbounds.
  destruct (parse_gff2_clean _ _ _ Hr)
    as ((text & l & sid & sd & _ & _ & Hl & Hsid & _ & Hrs & Hrd & Hs & Hd)
        & Hfs).
  assert (Hx : exists x, is_comment (sid ++ tab :: x) = false).
  { unfold feature_line in Hl. rewrite skipped_spec in Hl.
    apply negb_true_iff, orb_false_iff in Hl as [Hc Hlen].
    apply Nat.ltb_ge in Hlen.
    destruct (first_column_prefix l) as [x Hx]; [lia|].
    exists x. rewrite <- Hsid, <- Hx. done. }
  destruct Hx as [x Hx].
  unfold parse_gff2, write_gff3, mrna_feature. rewrite lookup_insert_eq.
  rewrite readlines_concat.
  - rewrite Hrs, Hrd. by apply (parse_lines_gff3_lines _ _ _ _ _ _ x).
  - destruct Hbase as [_ Hbase], Hs as [_ Hs], Hd as [_ Hd].
    apply gff3_lines_bodies; by rewrite ?Hrs, ?Hrd.
Qed.

Lemma written_file_parses_back_witness :
  parse_gff2
    (write_gff3 {[gene1_path := gene1_text]} (out_path (str "gene1.gff"))
       (str "gene1") (Some (str "chr1")) 100 200 (Some (str "+"))
       [MkFeature (str "CDS") 100 200 (str ".") (str "+") (str "0")
          (str "gene_id=G1");
        MkFeature (str "exon") 100 200 (str ".") (str "+") (str ".")
          (str "gene_id=G1")])
    (out_path (str "gene1.gff"))
  = Ok (MkParsed (Some (str "chr1")) 100 200 (Some (str "+"))
          [MkFeature (str "mRNA") 100 200 (str ".") (str "+") (str ".")
             (str "ID=gene1-PA;transcript_id=gene1-PA");
           MkFeature (str "CDS") 100 200 (str ".") (str "+") (str "0")
             (str "Parent=gene1-PA;gene_id=G1");
           MkFeature (str "exon") 100 200 (str ".") (str "+") (str ".")
             (str "Parent=gene1-PA;gene_id=G1")]).
Proof.
  apply (written_file_parses_back {[gene1_path := gene1_text]} gene1_path
           (out_path (str "gene1.gff")) (str "gene1")
           (MkParsed (Some (str "chr1")) 100 200 (Some (str "+"))
              [MkFeature (str "CDS") 100 200 (str ".") (str "+") (str "0")
                 (str "gene_id=G1");
               MkFeature (str "exon") 100 200 (str ".") (str "+") (str ".")
                 (str "gene_id=G1")])).
  - unfold parse_gff2. rewrite lookup_singleton_eq. by vm_compute.
  - repeat split; vm_compute; intuition discriminate.
Defined.

(** * The identifiers of the lines written *)

(** ** Reading the attributes of a line *)

Lemma split_app_sep c a rest :
  ~ In c a -> split c (a ++ c :: rest) = a :: split c rest.
Proof.
  induction a as [|d a IH]; intros Hno; simpl.
  - by rewrite Ascii.eqb_refl.
  - destruct (Ascii.eqb_spec d c) as [->|_]; [exfalso; apply Hno; by left|].
    rewrite IH; [done|]. intros H. apply Hno. by right.
Qed.

Lemma split_one_field c s : ~ In c s -> split c s = [s].
Proof.
  induction s as [|d s IH]; intros Hno; [done|]. simpl.
  destruct (Ascii.eqb_spec d c) as [->|_]; [exfalso; apply Hno; by left|].
  rewrite IH; [done|]. intros H. apply Hno. by right.
Qed.

Lemma cut_at_first c k v :
  ~ In c k -> cut_at c (k ++ c :: v) = (k, v).
Proof.
  induction k as [|d k IH]; intros Hno; simpl.
  - by rewrite Ascii.eqb_refl.
  - destruct (Ascii.eqb_spec d c) as [->|_]; [exfalso; apply Hno; by left|].
    rewrite IH; [done|]. intros H. apply Hno. by right.
Qed.

Lemma mrna_id_no_semicolon base :
  ~ In ";"%char base -> ~ In ";"%char (mrna_id base).
Proof.
  intros Hb. unfold mrna_id. rewrite in_app_iff. intros [H|H]; [done|].
  revert H. vm_compute. intuition discriminate.
Qed.

(** The attributes read from the ninth column of the mRNA line and from
    the ninth column of a child line. *)
Lemma mrna_attributes base :
  ~ In ";"%char base ->
  attributes
    (str "ID=" ++ mrna_id base ++ str ";transcript_id=" ++ mrna_id base)
  = [(str "ID", mrna_id base); (str "transcript_id", mrna_id base)].
Proof.
  intros Hb. apply mrna_id_no_semicolon in Hb. unfold attributes.
  change (str "ID=" ++ mrna_id base ++ str ";transcript_id=" ++ mrna_id base)
    with ((str "ID=" ++ mrna_id base)
          ++ ";"%char :: str "transcript_id=" ++ mrna_id base).
  rewrite split_app_sep, split_one_field.
  - cbn [map].
    change (str "ID=" ++ mrna_id base)
      with (str "ID" ++ "="%char :: mrna_id base).
    change (str "transcript_id=" ++ mrna_id base)
      with (str "transcript_id" ++ "="%char :: mrna_id base).
    by rewrite (cut_at_first "="%char (str "ID") (mrna_id base)),
      (cut_at_first "="%char (str "transcript_id") (mrna_id base))
      by (vm_compute; intuition discriminate).
  - rewrite in_app_iff. intros [H|H]; [|done].
    revert H. vm_compute. intuition discriminate.
  - rewrite in_app_iff. intros [H|H]; [|done].
    revert H. vm_compute. intuition discriminate.
Qed.

Lemma child_attributes base attrs :
  ~ In ";"%char base ->
  attributes (str "Parent=" ++ mrna_id base ++ str ";" ++ attrs)
  = (str "Parent", mrna_id base) :: attributes attrs.
Proof.
  intros Hb. apply mrna_id_no_semicolon in Hb. unfold attributes.
  change (str "Parent=" ++ mrna_id base ++ str ";" ++ attrs)
    with ((str "Parent=" ++ mrna_id base) ++ ";"%char :: attrs).
  rewrite split_app_sep.
  - cbn [map].
    change (str "Parent=" ++ mrna_id base)
      with (str "Parent" ++ "="%char :: mrna_id base).
    by rewrite (cut_at_first "="%char (str "Parent") (mrna_id base))
      by (vm_compute; intuition discriminate).
  - rewrite in_app_iff. intros [H|H]; [|done].
    revert H. vm_compute. intuition discriminate.
Qed.

Lemma attr_value_first tag v rest col :
  attributes col = (tag, v) :: rest -> attr_value tag col = Some v.
Proof.
  intros H. unfold attr_value, str_eqb. rewrite H. cbn [find fst].
  by rewrite bool_decide_eq_true_2.
Qed.

Lemma attr_value_second tag0 v0 tag v rest col :
  tag0 <> tag ->
  attributes col = (tag0, v0) :: (tag, v) :: rest ->
  attr_value tag col = Some v.
Proof.
  intros Hne H. unfold attr_value, str_eqb. rewrite H. cbn [find fst].
  by rewrite bool_decide_eq_false_2, bool_decide_eq_true_2.
Qed.

Lemma child_lines_ids base sid cs :
  clean base -> ~ In ";"%char base -> clean sid ->
  Forall clean_feature cs ->
  Forall2
    (fun l f =>
       column 2 l = ftype f
       /\ startswith (column 8 l) (str "Parent=" ++ mrna_id base) = true
       /\ attr_value (str "Parent") (column 8 l) = Some (mrna_id base))
    (map (child_line base (Some sid)) cs) cs.
Proof.
  intros Hb Hsemi Hs Hcs.
  induction Hcs as [|f cs Hf _ IH]; [constructor|].
  cbn [map]. constructor; [|exact IH].
  unfold column. rewrite child_line_columns by done. cbn [nth].
  split; [done|]. split.
  - apply startswith_spec. exists (str ";" ++ fattrs f).
    by rewrite <- app_assoc.
  - by apply (attr_value_first _ _ (attributes (fattrs f))),
      child_attributes.
Qed.

(** The claim as it stands fails on a base name with a semicolon, such as
    the one [main] takes from the file name [x;transcript_id=y.gff]: the
    attribute string written is then cut before the end of the base name,
    and the line has [ID=x] and [transcript_id=y-PA]. *)
Lemma mrna_ids_counterexample :
  ~ (forall (fsys : filesystem) (path out base text : pystr) (r : parsed),
       parse_gff2 fsys path = Ok r ->
       write_gff3 fsys out base (p_seqid r) (p_start r) (p_end r)
         (p_strand r) (p_features r) !! out = Some text ->
       attr_value (str "ID") (column 8 (nth 2 (readlines text) []))
       = Some (mrna_id base)
       /\ attr_value (str "transcript_id")
            (column 8 (nth 2 (readlines text) []))
          = Some (mrna_id base)).
Proof.
  intros H.
  destruct (H {[gene1_path := gene1_text]} gene1_path
              (out_path (str "x;transcript_id=y.gff"))
              (fst (splitext (str "x;transcript_id=y.gff")))
              (gff3_text (fst (splitext (str "x;transcript_id=y.gff")))
                 (MkParsed (Some (str "chr1")) 100 200 (Some (str "+"))
                    [MkFeature (str "CDS") 100 200 (str ".") (str "+")
                       (str "0") (str "gene_id=G1");
                     MkFeature (str "exon") 100 200 (str ".") (str "+")
                       (str ".") (str "gene_id=G1")]))
              (MkParsed (Some (str "chr1")) 100 200 (Some (str "+"))
                 [MkFeature (str "CDS") 100 200 (str ".") (str "+")
                    (str "0") (str "gene_id=G1");
                  MkFeature (str "exon") 100 200 (str ".") (str "+")
                    (str ".") (str "gene_id=G1")]))
    as [Hid _].
  - unfold parse_gff2. rewrite lookup_singleton_eq. by vm_compute.
  - apply lookup_insert_eq.
  - vm_compute in Hid. discriminate Hid.
Qed.

(** C3, amended.  When [write_gff3] is given what [parse_gff2] returned and
    a base name that holds no semicolon, no tab and no line end, the file
    written has, after its two directive lines, the mRNA line, then the
    child lines, then the closing line.  The third column of the mRNA
    line is [mRNA]; its attributes are [ID] and [transcript_id], in this
    order, both with the value [<base>-PA].  There is one child line for
    each feature of type [CDS] or [exon], in order; its attribute string
    begins with [Parent=<base>-PA] and the value of its [Parent] is
    [<base>-PA], the same identifier. *)
Theorem mrna_and_parent_ids
    (fsys : filesystem) (path out base : pystr) (r : parsed) :
  parse_gff2 fsys path = Ok r -> clean base -> ~ In ";"%char base ->
  exists text l2 m cs,
    write_gff3 fsys out base (p_seqid r) (p_start r) (p_end r)
      (p_strand r) (p_features r) !! out = Some text
    /\ readlines text
       = [str "##gff-version 3" ++ [newline]; l2; m] ++ cs
         ++ [str "###" ++ [newline]]
    /\ column 2 m = str "mRNA"
    /\ attributes (column 8 m)
       = [(str "ID", mrna_id base); (str "transcript_id", mrna_id base)]
    /\ attr_value (str "ID") (column 8 m) = Some (mrna_id base)
    /\ attr_value (str "transcript_id") (column 8 m) = Some (mrna_id base)
    /\ Forall2
         (fun l f =>
            column 2 l = ftype f
            /\ startswith (column 8 l) (str "Parent=" ++ mrna_id base)
               = true
            /\ attr_value (str "Parent") (column 8 l)
               = Some (mrna_id base))
         cs (children (p_features r)).
Proof.
  intros Hr Hbase Hsemi.
  destruct (parse_gff2_clean _ _ _ Hr)
    as ((_ & _ & sid & sd & _ & _ & _ & _ & _ & Hrs & Hrd & Hs & Hd) & Hfs).
  rewrite Hrs, Hrd.
  eexists _, _, (mrna_line base (Some sid) (p_start r) (p_end r) (Some sd)),
    (child_lines base (Some sid) (p_features r)).
  split; [apply lookup_insert_eq|]. split.
  { rewrite readlines_concat; [reflexivity|].
    destruct Hbase as [_ Hbase], Hs as [_ Hs], Hd as [_ Hd].
    by apply gff3_lines_bodies. }
  pose proof (mrna_attributes base Hsemi) as Hattrs.
  unfold column. rewrite mrna_line_columns by done. cbn [nth].
  split; [done|]. split; [done|]. split.
  { by apply (attr_value_first _ _ _ _ Hattrs). }
  split.
  { assert (Hne : str "ID" <> str "transcript_id")
      by (vm_compute; discriminate).
    by apply (attr_value_second _ _ _ _ _ _ Hne Hattrs). }
  rewrite child_lines_filter. fold (children (p_features r)).
  apply child_lines_ids; try done. by apply children_clean.
Qed.

Lemma mrna_and_parent_ids_witness :
  exists text l2 m cs,
    write_gff3 {[gene1_path := gene1_text]} (out_path (str "gene1.gff"))
      (str "gene1") (Some (str "chr1")) 100 200 (Some (str "+"))
      [MkFeature (str "CDS") 100 200 (str ".") (str "+") (str "0")
         (str "gene_id=G1");
       MkFeature (str "exon") 100 200 (str ".") (str "+") (str ".")
         (str "gene_id=G1")] !! out_path (str "gene1.gff") = Some text
    /\ readlines text
       = [str "##gff-version 3" ++ [newline]; l2; m] ++ cs
         ++ [str "###" ++ [newline]]
    /\ column 2 m = str "mRNA"
    /\ attributes (column 8 m)
       = [(str "ID", str "gene1-PA"); (str "transcript_id", str "gene1-PA")]
    /\ attr_value (str "ID") (column 8 m) = Some (str "gene1-PA")
    /\ attr_value (str "transcript_id") (column 8 m) = Some (str "gene1-PA")
    /\ Forall2
         (fun l f =>
            column 2 l = ftype f
            /\ startswith (column 8 l) (str "Parent=gene1-PA") = true
            /\ attr_value (str "Parent") (column 8 l)
               = Some (str "gene1-PA"))
         cs
         [MkFeature (str "CDS") 100 200 (str ".") (str "+") (str "0")
            (str "gene_id=G1");
          MkFeature (str "exon") 100 200 (str ".") (str "+") (str ".")
            (str "gene_id=G1")].
Proof.
  apply (mrna_and_parent_ids {[gene1_path := gene1_text]} gene1_path
           (out_path (str "gene1.gff")) (str "gene1")
           (MkParsed (Some (str "chr1")) 100 200 (Some (str "+"))
              [MkFeature (str "CDS") 100 200 (str ".") (str "+") (str "0")
                 (str "gene_id=G1");
               MkFeature (str "exon") 100 200 (str ".") (str "+") (str ".")
                 (str "gene_id=G1")])).
  - unfold parse_gff2. rewrite lookup_singleton_eq. by vm_compute.
  - repeat split; vm_compute; intuition discriminate.
  - vm_compute. intuition discriminate.
Defined.
